(** * The release script [scripts/publish], as a trace-producing program

    The script is a straight-line sequence of checks and calls of external
    tools, run under [set -euo pipefail].  It is embedded as a program in a
    small monad that records what the script writes and which tools it
    calls, and that stops at the first [exit] (explicit, or forced by
    [set -e] on a failing command).  What the tools answer is read from an
    environment record with one field per call site of the script. *)

From Stdlib Require Import ZArith List String Ascii Bool Lia DecimalString.
Import ListNotations.
Local Open Scope string_scope.
Local Open Scope list_scope.
Local Open Scope Z_scope.

(** ** Text utilities used by the script: [grep] and [tail] *)

Module Text.

(** The patterns of the script are basic regular expressions built from
    ordinary characters, the dot, and a leading [^] only. *)
Inductive Atom : Type :=
| Lit (c : ascii)
| AnyChar.

Definition atom_of (c : ascii) : Atom :=
  if Ascii.eqb c "." then AnyChar else Lit c.

Fixpoint atoms (pattern : string) : list Atom :=
  match pattern with
  | EmptyString => []
  | String c rest => atom_of c :: atoms rest
  end.

Definition atom_matches (a : Atom) (c : ascii) : bool :=
  match a with
  | Lit d => Ascii.eqb d c
  | AnyChar => true
  end.

Fixpoint match_here (p : list Atom) (s : string) : bool :=
  match p, s with
  | [], _ => true
  | _ :: _, EmptyString => false
  | a :: p', String c s' => atom_matches a c && match_here p' s'
  end.

Fixpoint match_anywhere (p : list Atom) (s : string) : bool :=
  match_here p s
  || match s with
     | EmptyString => false
     | String _ s' => match_anywhere p s'
     end.

(** Does [grep pattern] select this line? *)
Definition line_matches (pattern line : string) : bool :=
  match pattern with
  | String "^"%char p => match_here (atoms p) line
  | _ => match_anywhere (atoms pattern) line
  end.

(** [grep pattern], [grep -v pattern] and [tail -n n] on a list of lines. *)
Definition grep (pattern : string) (lines : list string) : list string :=
  filter (line_matches pattern) lines.

Definition grep_v (pattern : string) (lines : list string) : list string :=
  filter (fun l => negb (line_matches pattern l)) lines.

Definition tail_n (n : nat) (lines : list string) : list string :=
  skipn (List.length lines - n)%nat lines.

(** Exit status of [grep] (also of [grep -q]): 0 when a line is selected. *)
Definition grep_status (pattern : string) (lines : list string) : Z :=
  if existsb (line_matches pattern) lines then 0 else 1.

(** Status of a two-command pipeline under [set -o pipefail]: that of the
    rightmost command that failed, 0 when none did. *)
Definition pipefail (left right : Z) : Z :=
  if right =? 0 then left else right.

Definition newline : string := String (ascii_of_nat 10) EmptyString.
Definition dquote : string := String (ascii_of_nat 34) EmptyString.

(** Lines joined by newlines, none after the last line. *)
Fixpoint unlines (lines : list string) : string :=
  match lines with
  | [] => ""
  | [l] => l
  | l :: rest => l ++ newline ++ unlines rest
  end.

Definition is_empty (s : string) : bool :=
  match s with
  | EmptyString => true
  | String _ _ => false
  end.

End Text.

(** ** The shell: output, external commands, and exit *)

Module Shell.

Inductive Event : Type :=
| Echo (line : string)         (* a line on standard output *)
| EchoN (text : string)        (* [echo -n]: text without the newline *)
| Exec (argv : list string).   (* an external tool is run *)

(** A script fragment yields the events it produced and either a value
    (it ran to its end) or the exit code the whole run stops with. *)
Definition Script (A : Type) : Type := list Event * (A + Z).

Definition events {A : Type} (m : Script A) : list Event := fst m.

(** The exit code of a run of [m] on its own: 0 when it reaches its end. *)
Definition status_of {A : Type} (m : Script A) : Z :=
  match snd m with
  | inl _ => 0
  | inr code => code
  end.

Definition ret {A : Type} (a : A) : Script A := ([], inl a).

Definition bind {A B : Type} (m : Script A) (k : A -> Script B) : Script B :=
  match m with
  | (t, inl a) => let (t', r) := k a in (t ++ t', r)
  | (t, inr code) => (t, inr code)
  end.

Definition exit {A : Type} (code : Z) : Script A := ([], inr code).

Definition echo (line : string) : Script unit := ([Echo line], inl tt).

Definition echo_n (text : string) : Script unit := ([EchoN text], inl tt).

(** An external tool run where its status cannot stop the script: inside
    the condition of an [if], or in a command substitution whose status
    is masked ([local x=$(...)], an argument of another command). *)
Definition probe (argv : list string) : Script unit := ([Exec argv], inl tt).

(** [set -e]: a command that fails outside a condition ends the run with
    its status. *)
Definition errexit (status : Z) : Script unit :=
  if status =? 0 then ret tt else exit status.

Definition exec (argv : list string) (status : Z) : Script unit :=
  bind (probe argv) (fun _ => errexit status).

(** [if cond; then body; fi] *)
Definition when (cond : bool) (body : Script unit) : Script unit :=
  if cond then body else ret tt.

Fixpoint echo_lines (lines : list string) : Script unit :=
  match lines with
  | [] => ret tt
  | l :: rest => bind (echo l) (fun _ => echo_lines rest)
  end.

End Shell.

Import Shell.

Declare Scope script_scope.
Delimit Scope script_scope with script.
Notation "x <- m ;; k" := (bind m (fun x => k))
  (at level 61, m at next level, right associativity) : script_scope.
Notation "m ;; k" := (bind m (fun _ => k))
  (at level 61, right associativity) : script_scope.
Local Open Scope script_scope.

(** ** What the outside world answers, one field per call site *)

Record Env : Type := {
  (* line 7: the integer printed by scripts/is_release_candidate.js, a file
     of the repository that is not among the sources at hand; the run is
     followed from the point where line 7 has set the variable *)
  is_release_candidate : Z;
  (* line 178: status of [cd] to the repository root *)
  cd_toplevel : Z;
  (* lines 24, 31, 38: statuses of npm whoami, yarn login, which hub *)
  npm_whoami : Z;
  yarn_login : Z;
  which_hub : Z;
  (* line 45 *)
  GITHUB_TOKEN : option string;
  (* lines 51, 58, 65, 73: what git config --get prints *)
  git_config_gpg_format : string;
  git_config_signingkey : string;
  git_config_signingkey_local : string;
  git_config_gpgsign : string;
  (* line 66: [ -f path ] *)
  is_regular_file : string -> bool;
  (* lines 183, 185: status of git fetch; lines and status of git status *)
  git_fetch : Z;
  git_status : list string * Z;
  (* lines 203, 213-225, 229, 232: statuses of the yarn steps *)
  yarn_install : Z;
  yarn_version : Z;
  yarn_build : Z;
  yarn_test : Z;
  (* line 133: the hash git log -1 prints; line 135: lines, status of git show *)
  git_log_head : string;
  git_show_signature : list string * Z;
  (* line 237 *)
  git_push : Z;
  (* line 83: lines and status of which hub inside create_github_release *)
  which_hub_release : list string * Z;
  (* line 89: the lines of git tag --sort version:refname.  Tag names hold
     no blank, tab or glob character, so each selected line is one word *)
  git_tag : list string;
  (* line 99: the subject lines of the commits in a revision range *)
  git_log_subjects : string -> list string;
  (* line 120 *)
  hub_release_create : Z;
  (* lines 247, 249 *)
  yarn_publish : Z
}.

(** ** The script *)

Module Publish.

Import Text.

(* lines 9-18 *)
Definition usage : list string :=
  [ "USAGE:";
    "    ./scripts/publish <release_type>";
    "";
    "ARGS:";
    "    <release_type>";
    "            A Semantic Versioning release type used to bump the version number. Either "
      ++ dquote ++ "patch" ++ dquote ++ ", " ++ dquote ++ "minor" ++ dquote
      ++ ", or " ++ dquote ++ "major" ++ dquote ++ "." ]%string.

Definition echo_help : Script unit := echo_lines usage.

Definition token_unset (e : Env) : bool :=
  match GITHUB_TOKEN e with
  | None => true
  | Some v => is_empty v
  end.

(* lines 20-80 *)
Definition verify_prerequisites (e : Env) : Script unit :=
  echo "Verifying prerequisites..." ;;
  probe ["npm"; "whoami"] ;;
  when (negb (npm_whoami e =? 0))
    (echo "Error! You are not logged in to npm." ;;
     echo "Please run 'npm login' and try again." ;;
     exit 1) ;;
  probe ["yarn"; "login"; "--silent"] ;;
  when (negb (yarn_login e =? 0))
    (echo "Error! You are not logged in to yarn." ;;
     echo "Please run 'yarn login' and try again." ;;
     exit 1) ;;
  probe ["which"; "hub"] ;;
  when (negb (which_hub e =? 0))
    (echo "Error! 'hub' command not found." ;;
     echo "Please install hub with 'brew install hub'." ;;
     exit 1) ;;
  when (token_unset e)
    (echo "Error! GITHUB_TOKEN environment variable is not set." ;;
     exit 1) ;;
  probe ["git"; "config"; "--get"; "gpg.format"] ;;
  when (negb (String.eqb (git_config_gpg_format e) "ssh"))
    (echo "Error! Git is not configured to use SSH for commit signing." ;;
     echo "Please run: git config --global gpg.format ssh" ;;
     exit 1) ;;
  probe ["git"; "config"; "--get"; "user.signingkey"] ;;
  when (is_empty (git_config_signingkey e))
    (echo "Error! Git signing key is not configured." ;;
     echo "Please run: git config --global user.signingkey ~/.ssh/id_ed25519.pub" ;;
     exit 1) ;;
  probe ["git"; "config"; "--get"; "user.signingkey"] ;;
  let signing_key := git_config_signingkey_local e in
  when (negb (is_regular_file e signing_key))
    (echo ("Error! Git signing key does not exist at: " ++ signing_key) ;;
     echo "Please set up SSH key for signing as described in the documentation." ;;
     exit 1) ;;
  probe ["git"; "config"; "--get"; "commit.gpgsign"] ;;
  when (negb (String.eqb (git_config_gpgsign e) "true"))
    (echo "Error! Git commit signing is not enabled." ;;
     echo "Please run: git config --global commit.gpgsign true" ;;
     exit 1) ;;
  echo "All prerequisites verified successfully!".

(* lines 123-130 *)
Definition fallback_message : list string :=
  [ "Remember to create a release on GitHub with a changelog notes:";
    "";
    "    https://github.com/stripe/stripe-js/releases/new";
    "" ].

Definition create_github_release_fallback : Script unit :=
  echo_lines fallback_message.

(* line 89 *)
Definition versions (e : Env) : list string :=
  tail_n 2 (grep_v "rc" (grep "^v" (git_tag e))).

(* line 99: git log --pretty=format:"- %s" prints one line per commit *)
Definition commit_titles (e : Env) (range : string) : string :=
  unlines (map (fun subject => "- " ++ subject)%string (git_log_subjects e range)).

(* lines 100-115; the command substitution drops the final newlines *)
Definition release_notes (current_version titles : string) : string :=
  unlines
    [ current_version;
      "";
      "<!-- Please group the following commits into one of the sections below. -->";
      "<!-- Remove empty sections when done. -->";
      "";
      titles;
      "";
      "### New features";
      "";
      "### Fixes";
      "";
      "### Changed" ].

(* lines 82-121 *)
Definition create_github_release (e : Env) : Script unit :=
  probe ["which"; "hub"] ;;
  if pipefail (snd (which_hub_release e))
              (grep_status "not found" (fst (which_hub_release e))) =? 0
  then create_github_release_fallback
  else
    probe ["git"; "tag"; "--sort"; "version:refname"] ;;
    let versions := versions e in
    if negb (Nat.eqb (List.length versions) 2)
    then create_github_release_fallback
    else
      let previous_version := nth 0 versions "" in
      let current_version := nth 1 versions "" in
      let range := (previous_version ++ ".." ++ current_version ++ "^")%string in
      probe ["git"; "log"; "--pretty=format:- %s"; range] ;;
      let notes := release_notes current_version (commit_titles e range) in
      echo "Creating GitHub release" ;;
      echo "" ;;
      echo_n "    " ;;
      exec ["hub"; "release"; "create"; "-em"; notes; current_version]
           (hub_release_create e).

(* lines 132-140 *)
Definition verify_commit_is_signed (e : Env) : Script unit :=
  probe ["git"; "log"; "-1"; "--format=%H"] ;;
  let commit_hash := git_log_head e in
  probe ["git"; "show"; "--no-patch"; "--pretty=format:%G?"; commit_hash] ;;
  when (pipefail (snd (git_show_signature e))
                 (grep_status "N" (fst (git_show_signature e))) =? 0)
    (echo ("Error! Commit " ++ commit_hash ++ " is not signed") ;;
     echo "Please follow https://docs.github.com/en/authentication/managing-commit-signature-verification/adding-a-gpg-key-to-your-github-account and sign your commit" ;;
     exit 1).

Definition is_release_type (s : string) : bool :=
  String.eqb s "patch" || String.eqb s "minor" || String.eqb s "major".

Definition is_help_token (s : string) : bool :=
  String.eqb s "-h" || String.eqb s "--help" || String.eqb s "help".

(* lines 145-167 *)
Definition validate_release_type (e : Env) (args : list string) : Script unit :=
  let RELEASE_TYPE := hd "" args in
  when (negb (is_release_candidate e =? 1))
    (when (Nat.eqb (List.length args) 0)
       (echo "Error! Missing release type argument" ;;
        echo "" ;;
        echo_help ;;
        exit 1) ;;
     if is_release_type RELEASE_TYPE then ret tt
     else
       echo "Error! Invalid release type supplied" ;;
       echo "" ;;
       echo_help ;;
       exit 1).

(* lines 170-175 *)
Definition show_help (args : list string) : Script unit :=
  when (is_help_token (hd "" args)) (echo_help ;; exit 0).

(* lines 182-200 *)
Definition check_repository_state (e : Env) : Script unit :=
  echo "Fetching git remotes" ;;
  exec ["git"; "fetch"] (git_fetch e) ;;
  exec ["git"; "status"] (snd (git_status e)) ;;
  let GIT_STATUS := fst (git_status e) in
  when (negb (grep_status "On branch master" GIT_STATUS =? 0))
    (echo "Error! Must be on master branch to publish" ;;
     exit 1) ;;
  when (negb (grep_status "Your branch is up to date with 'origin/master'." GIT_STATUS =? 0))
    (echo "Error! Must be up to date with origin/master to publish" ;;
     exit 1) ;;
  when (negb (grep_status "working tree clean" GIT_STATUS =? 0))
    (echo "Error! Cannot publish with dirty working tree" ;;
     exit 1).

(* lines 206-226: the command line handed to the package manager *)
Definition version_command (irc : Z) (RELEASE_TYPE : string) : list string :=
  if irc =? 1 then
    if is_empty RELEASE_TYPE
    then ["yarn"; "version"; "--prerelease"; "--preid=rc"]
    else ["yarn"; "version"; ("--pre" ++ RELEASE_TYPE)%string; "--preid=rc"]
  else ["yarn"; "version"; ("--" ++ RELEASE_TYPE)%string].

(* lines 245-250 *)
Definition publish_command (irc : Z) : list string :=
  if irc =? 1
  then ["yarn"; "--ignore-scripts"; "publish"; "--tag=rc"; "--non-interactive"; "--access=public"]
  else ["yarn"; "--ignore-scripts"; "publish"; "--non-interactive"; "--access=public"].

(* lines 177-178 *)
Definition enter_repository (e : Env) : Script unit :=
  probe ["git"; "rev-parse"; "--show-toplevel"] ;;
  errexit (cd_toplevel e).

(* lines 202-203 *)
Definition install_dependencies (e : Env) : Script unit :=
  echo "Installing dependencies according to lockfile" ;;
  exec ["yarn"; "install"; "--frozen-lockfile"] (yarn_install e).

(* lines 205-226 *)
Definition bump_version (e : Env) (RELEASE_TYPE : string) : Script unit :=
  echo ("Bumping package.json " ++ RELEASE_TYPE ++ " version and tagging commit") ;;
  exec (version_command (is_release_candidate e) RELEASE_TYPE) (yarn_version e).

(* lines 228-232 *)
Definition build (e : Env) : Script unit :=
  echo "Building" ;;
  exec ["yarn"; "run"; "build"] (yarn_build e).

Definition test (e : Env) : Script unit :=
  echo "Running tests" ;;
  exec ["yarn"; "run"; "test"] (yarn_test e).

(* lines 236-237 *)
Definition push (e : Env) : Script unit :=
  echo "Pushing git commit and tag" ;;
  exec ["git"; "push"; "--follow-tags"] (git_push e).

(* lines 239-243 *)
Definition release (e : Env) : Script unit :=
  when (negb (is_release_candidate e =? 1)) (create_github_release e).

(* lines 245-250 *)
Definition publish (e : Env) : Script unit :=
  echo "Publishing release" ;;
  exec (publish_command (is_release_candidate e)) (yarn_publish e).

(* the script from its first command (line 145) to its last (line 253) *)
Definition main (e : Env) (args : list string) : Script unit :=
  let RELEASE_TYPE := hd "" args in
  validate_release_type e args ;;
  show_help args ;;
  enter_repository e ;;
  verify_prerequisites e ;;
  check_repository_state e ;;
  install_dependencies e ;;
  bump_version e RELEASE_TYPE ;;
  build e ;;
  test e ;;
  verify_commit_is_signed e ;;
  push e ;;
  release e ;;
  publish e ;;
  echo "Publish successful!" ;;
  echo "".

(** A whole run: everything that happened, and the exit code. *)
Definition trace (e : Env) (args : list string) : list Event :=
  events (main e args).

Definition exit_code (e : Env) (args : list string) : Z :=
  status_of (main e args).

Definition run (e : Env) (args : list string) : list Event * Z :=
  (trace e args, exit_code e args).

End Publish.

(** ** The package manager's version increment *)

Module Yarn.

Record Version : Type := {
  major : nat;
  minor : nat;
  patch : nat;
  prerelease : option (string * nat)   (* identifier and counter *)
}.

Inductive Component : Type := Major | Minor | Patch.

Inductive Increment : Type :=
| Release (c : Component)
| PreRelease (c : Component) (preid : string)
| PreOnly (preid : string).

Definition component_name (c : Component) : string :=
  match c with
  | Major => "major"
  | Minor => "minor"
  | Patch => "patch"
  end.

(** The component is raised, the lower ones are reset, no suffix is left. *)
Definition bump (c : Component) (v : Version) : Version :=
  match c with
  | Major => {| major := S (major v); minor := 0; patch := 0; prerelease := None |}
  | Minor => {| major := major v; minor := S (minor v); patch := 0; prerelease := None |}
  | Patch => {| major := major v; minor := minor v; patch := S (patch v); prerelease := None |}
  end.

Definition with_prerelease (v : Version) (p : option (string * nat)) : Version :=
  {| major := major v; minor := minor v; patch := patch v; prerelease := p |}.

(** Modelled from the spec: the increment that [yarn version] applies to
    the version of the manifest.  The package manager is an external tool;
    the three transitions are those of the spec's version bump state
    machine, which are also the ones the script's comments (lines 210-224)
    expect: a release flag raises the component and strips the suffix; a
    pre-flag raises the component and starts a prerelease at counter 0;
    [--prerelease] raises the counter only, or starts one at 0. *)
Definition increment (i : Increment) (v : Version) : Version :=
  match i with
  | Release c => bump c v
  | PreRelease c preid => with_prerelease (bump c v) (Some (preid, 0%nat))
  | PreOnly preid =>
      match prerelease v with
      | Some (id, counter) => with_prerelease v (Some (id, S counter))
      | None => with_prerelease v (Some (preid, 0%nat))
      end
  end.

Fixpoint strip_prefix (p s : string) : option string :=
  match p, s with
  | EmptyString, _ => Some s
  | String a p', String b s' => if Ascii.eqb a b then strip_prefix p' s' else None
  | String _ _, EmptyString => None
  end.

Definition component_of (name : string) : option Component :=
  if String.eqb name "major" then Some Major
  else if String.eqb name "minor" then Some Minor
  else if String.eqb name "patch" then Some Patch
  else None.

(** Modelled from the spec: the flags of [yarn version] that the script
    uses, read off a command line. *)
Definition parse_command (argv : list string) : option Increment :=
  match argv with
  | [cmd; sub; flag] =>
      if String.eqb cmd "yarn" && String.eqb sub "version" then
        match strip_prefix "--" flag with
        | Some name => option_map Release (component_of name)
        | None => None
        end
      else None
  | [cmd; sub; flag; preid_flag] =>
      if String.eqb cmd "yarn" && String.eqb sub "version" then
        match strip_prefix "--preid=" preid_flag, strip_prefix "--pre" flag with
        | Some preid, Some name =>
            if String.eqb name "release" then Some (PreOnly preid)
            else option_map (fun c => PreRelease c preid) (component_of name)
        | _, _ => None
        end
      else None
  | _ => None
  end.

(** Version strings: [1.2.3] and [1.2.3-rc.0]. *)
Definition show_nat (n : nat) : string := NilEmpty.string_of_uint (Nat.to_uint n).

Definition read_nat (s : string) : option nat :=
  match s with
  | EmptyString => None
  | _ => option_map Nat.of_uint (NilEmpty.uint_of_string s)
  end.

Definition show_version (v : Version) : string :=
  show_nat (major v) ++ "." ++ show_nat (minor v) ++ "." ++ show_nat (patch v)
  ++ match prerelease v with
     | None => ""
     | Some (id, counter) => "-" ++ id ++ "." ++ show_nat counter
     end.

(** The text before the first [sep], and the text after it if there is one. *)
Fixpoint cut (sep : ascii) (s : string) : string * option string :=
  match s with
  | EmptyString => (EmptyString, None)
  | String c rest =>
      if Ascii.eqb c sep then (EmptyString, Some rest)
      else let (before, after) := cut sep rest in (String c before, after)
  end.

Definition read_core (s : string) : option (nat * nat * nat) :=
  match cut "." s with
  | (a, Some rest) =>
      match cut "." rest with
      | (b, Some c) =>
          match read_nat a, read_nat b, read_nat c with
          | Some x, Some y, Some z => Some (x, y, z)
          | _, _, _ => None
          end
      | _ => None
      end
  | _ => None
  end.

Definition read_suffix (s : string) : option (string * nat) :=
  match cut "." s with
  | (id, Some counter) => option_map (fun n => (id, n)) (read_nat counter)
  | _ => None
  end.

Definition read_version (s : string) : option Version :=
  match cut "-" s with
  | (core, None) =>
      option_map (fun '(x, y, z) =>
                    {| major := x; minor := y; patch := z; prerelease := None |})
                 (read_core core)
  | (core, Some suffix) =>
      match read_core core, read_suffix suffix with
      | Some (x, y, z), Some p =>
          Some {| major := x; minor := y; patch := z; prerelease := Some p |}
      | _, _ => None
      end
  end.

(** The version string the manifest holds after the command has run. *)
Definition version_after (argv : list string) (current : string) : option string :=
  match parse_command argv, read_version current with
  | Some i, Some v => Some (show_version (increment i v))
  | _, _ => None
  end.

End Yarn.

(** ** The version bump of a run *)

(** The script's variables for a request: [IS_RELEASE_CANDIDATE] is 1 in a
    prerelease run, and [RELEASE_TYPE] is the first argument or empty. *)
Definition prerelease_flag (is_prerelease : bool) : Z :=
  if is_prerelease then 1 else 0.

Definition release_type_variable (release_type : option string) : string :=
  hd "" (match release_type with Some t => [t] | None => [] end).

Definition version_bump (is_prerelease : bool) (release_type : option string)
                        (current : string) : option string :=
  Yarn.version_after
    (Publish.version_command (prerelease_flag is_prerelease)
                             (release_type_variable release_type))
    current.

(** ** Steps of a run *)

Inductive Step : Type :=
| CheckingPrerequisites
| CheckingRepoState
| Installing
| Bumping
| Building
| Testing
| VerifyingSignature
| Pushing
| CreatingRelease
| Publishing.

(** The step a command of the script belongs to.  [which hub] is run in two
    steps and [git rev-parse] before the first one; they belong to none. *)
Definition step_of (argv : list string) : option Step :=
  match argv with
  | cmd :: sub :: rest =>
      if String.eqb cmd "npm" then Some CheckingPrerequisites
      else if String.eqb cmd "hub" then Some CreatingRelease
      else if String.eqb cmd "yarn" then
        if String.eqb sub "login" then Some CheckingPrerequisites
        else if String.eqb sub "install" then Some Installing
        else if String.eqb sub "version" then Some Bumping
        else if String.eqb sub "run" then
          match rest with
          | script :: _ =>
              if String.eqb script "build" then Some Building
              else if String.eqb script "test" then Some Testing
              else None
          | [] => None
          end
        else if String.eqb sub "--ignore-scripts" then Some Publishing
        else None
      else if String.eqb cmd "git" then
        if String.eqb sub "config" then Some CheckingPrerequisites
        else if String.eqb sub "fetch" then Some CheckingRepoState
        else if String.eqb sub "status" then Some CheckingRepoState
        else if String.eqb sub "log" then
          match rest with
          | opt :: _ =>
              if String.eqb opt "-1" then Some VerifyingSignature
              else Some CreatingRelease
          | [] => None
          end
        else if String.eqb sub "show" then Some VerifyingSignature
        else if String.eqb sub "push" then Some Pushing
        else if String.eqb sub "tag" then Some CreatingRelease
        else None
      else None
  | _ => None
  end.

Definition step_of_event (ev : Event) : option Step :=
  match ev with
  | Exec argv => step_of argv
  | _ => None
  end.

(** The order of the steps in the script. *)
Definition code_order (s : Step) : nat :=
  match s with
  | CheckingPrerequisites => 0
  | CheckingRepoState => 1
  | Installing => 2
  | Bumping => 3
  | Building => 4
  | Testing => 5
  | VerifyingSignature => 6
  | Pushing => 7
  | CreatingRelease => 8
  | Publishing => 9
  end.



(** The run gets to a step when it runs one of its commands. *)
Definition reaches (s : Step) (t : list Event) : Prop :=
  exists argv, In (Exec argv) t /\ step_of argv = Some s.

(** No command of a step later than [s] is run. *)
Definition stops_within (s : Step) (t : list Event) : Prop :=
  forall argv s', In (Exec argv) t -> step_of argv = Some s' ->
    (code_order s' <= code_order s)%nat.

(** ** Prerequisites *)

Inductive Prerequisite : Type :=
| RegistryLogin
| SecondaryRegistryLogin
| ReleaseCli
| TokenPresent
| SigningMode
| SigningKeyConfigured
| SigningKeyExists
| SigningEnabled.

Definition all_prerequisites : list Prerequisite :=
  [ RegistryLogin; SecondaryRegistryLogin; ReleaseCli; TokenPresent;
    SigningMode; SigningKeyConfigured; SigningKeyExists; SigningEnabled ].

Definition holds (e : Env) (p : Prerequisite) : bool :=
  match p with
  | RegistryLogin => npm_whoami e =? 0
  | SecondaryRegistryLogin => yarn_login e =? 0
  | ReleaseCli => which_hub e =? 0
  | TokenPresent => negb (Publish.token_unset e)
  | SigningMode => String.eqb (git_config_gpg_format e) "ssh"
  | SigningKeyConfigured => negb (Text.is_empty (git_config_signingkey e))
  | SigningKeyExists => is_regular_file e (git_config_signingkey_local e)
  | SigningEnabled => String.eqb (git_config_gpgsign e) "true"
  end.

Definition first_failure (e : Env) : option Prerequisite :=
  find (fun p => negb (holds e p)) all_prerequisites.

(** What the script prints when a check fails. *)
Definition remediation (e : Env) (p : Prerequisite) : list string :=
  match p with
  | RegistryLogin =>
      [ "Error! You are not logged in to npm.";
        "Please run 'npm login' and try again." ]
  | SecondaryRegistryLogin =>
      [ "Error! You are not logged in to yarn.";
        "Please run 'yarn login' and try again." ]
  | ReleaseCli =>
      [ "Error! 'hub' command not found.";
        "Please install hub with 'brew install hub'." ]
  | TokenPresent =>
      [ "Error! GITHUB_TOKEN environment variable is not set." ]
  | SigningMode =>
      [ "Error! Git is not configured to use SSH for commit signing.";
        "Please run: git config --global gpg.format ssh" ]
  | SigningKeyConfigured =>
      [ "Error! Git signing key is not configured.";
        "Please run: git config --global user.signingkey ~/.ssh/id_ed25519.pub" ]
  | SigningKeyExists =>
      [ ("Error! Git signing key does not exist at: " ++ git_config_signingkey_local e)%string;
        "Please set up SSH key for signing as described in the documentation." ]
  | SigningEnabled =>
      [ "Error! Git commit signing is not enabled.";
        "Please run: git config --global commit.gpgsign true" ]
  end.

(** The command a check runs, if it runs one. *)
Definition probe_of (p : Prerequisite) : list Event :=
  match p with
  | RegistryLogin => [Exec ["npm"; "whoami"]]
  | SecondaryRegistryLogin => [Exec ["yarn"; "login"; "--silent"]]
  | ReleaseCli => [Exec ["which"; "hub"]]
  | TokenPresent => []
  | SigningMode => [Exec ["git"; "config"; "--get"; "gpg.format"]]
  | SigningKeyConfigured => [Exec ["git"; "config"; "--get"; "user.signingkey"]]
  | SigningKeyExists => [Exec ["git"; "config"; "--get"; "user.signingkey"]]
  | SigningEnabled => [Exec ["git"; "config"; "--get"; "commit.gpgsign"]]
  end.

Definition position (p : Prerequisite) : nat :=
  match p with
  | RegistryLogin => 0
  | SecondaryRegistryLogin => 1
  | ReleaseCli => 2
  | TokenPresent => 3
  | SigningMode => 4
  | SigningKeyConfigured => 5
  | SigningKeyExists => 6
  | SigningEnabled => 7
  end.

(** The commands of the checks up to and including [p]. *)
Definition probes_through (p : Prerequisite) : list Event :=
  flat_map probe_of (firstn (S (position p)) all_prerequisites).

(** The whole trace of a run that stops at the failing check [p]. *)
Definition trace_failing_at (e : Env) (p : Prerequisite) : list Event :=
  Exec ["git"; "rev-parse"; "--show-toplevel"]
  :: Echo "Verifying prerequisites..."
  :: probes_through p ++ map Echo (remediation e p).

(** The trace of a run up to the end of the prerequisite checks. *)
Definition trace_through_prerequisites : list Event :=
  Exec ["git"; "rev-parse"; "--show-toplevel"]
  :: Echo "Verifying prerequisites..."
  :: flat_map probe_of all_prerequisites
  ++ [Echo "All prerequisites verified successfully!"].

(** ** Repository state, as read off the text of [git status] *)

Inductive Violation : Type := WrongBranch | StaleBranch | DirtyTree.

Definition status_says (e : Env) (pattern : string) : bool :=
  existsb (Text.line_matches pattern) (fst (git_status e)).

Definition on_release_branch (e : Env) : bool :=
  status_says e "On branch master".

Definition up_to_date_with_remote (e : Env) : bool :=
  status_says e "Your branch is up to date with 'origin/master'.".

Definition working_tree_clean (e : Env) : bool :=
  status_says e "working tree clean".

Definition first_violation (e : Env) : option Violation :=
  if negb (on_release_branch e) then Some WrongBranch
  else if negb (up_to_date_with_remote e) then Some StaleBranch
  else if negb (working_tree_clean e) then Some DirtyTree
  else None.

Definition violation_message (v : Violation) : string :=
  match v with
  | WrongBranch => "Error! Must be on master branch to publish"
  | StaleBranch => "Error! Must be up to date with origin/master to publish"
  | DirtyTree => "Error! Cannot publish with dirty working tree"
  end.

(** The trace of a run up to the inspection of the [git status] text. *)
Definition trace_through_status : list Event :=
  trace_through_prerequisites
  ++ [ Echo "Fetching git remotes"; Exec ["git"; "fetch"]; Exec ["git"; "status"] ].

(** ** Commit signature, as read off [git show --pretty=format:%G?] *)

(** The commit is reported as carrying no signature: the command succeeded
    and printed the marker [N]. *)
Definition reported_unsigned (e : Env) : bool :=
  (snd (git_show_signature e) =? 0)
  && existsb (Text.line_matches "N") (fst (git_show_signature e)).

Definition signature_inspection (e : Env) : list Event :=
  [ Exec ["git"; "log"; "-1"; "--format=%H"];
    Exec ["git"; "show"; "--no-patch"; "--pretty=format:%G?"; git_log_head e] ].

Definition unsigned_message (e : Env) : list string :=
  [ ("Error! Commit " ++ git_log_head e ++ " is not signed")%string;
    "Please follow https://docs.github.com/en/authentication/managing-commit-signature-verification/adding-a-gpg-key-to-your-github-account and sign your commit" ].

(** ** Release notes *)

(** The version tags that are not prereleases, in version order (line 89
    before [tail]). *)
Definition release_tags (e : Env) : list string :=
  Text.grep_v "rc" (Text.grep "^v" (git_tag e)).

(** Line 83: the test that sends the step to the fallback at once. *)
Definition hub_reported_missing (e : Env) : bool :=
  Text.pipefail (snd (which_hub_release e))
                (Text.grep_status "not found" (fst (which_hub_release e))) =? 0.

(** [x] occurs in the text [s]. *)
Definition occurs (x s : string) : Prop :=
  exists before after, s = (before ++ x ++ after)%string.

(** The step printed the manual instructions and nothing else, and went on. *)
Definition falls_back (m : Script unit) : Prop :=
  snd m = inl tt
  /\ exists probes, events m = map Exec probes ++ map Echo Publish.fallback_message.

Definition revision_range (previous current : string) : string :=
  (previous ++ ".." ++ current ++ "^")%string.

Definition release_command (notes version : string) : Event :=
  Exec ["hub"; "release"; "create"; "-em"; notes; version].

(** ** Requests *)

(** The release-type argument of a run, if any. *)
Definition release_type_argument (args : list string) : option string :=
  hd_error args.

Definition usage_events : list Event := map Echo Publish.usage.

(** The arguments pass the validation of lines 145-167. *)
Definition accepts (e : Env) (args : list string) : bool :=
  (is_release_candidate e =? 1) || Publish.is_release_type (hd "" args).

Definition validation_error (args : list string) : string :=
  match args with
  | [] => "Error! Missing release type argument"
  | _ :: _ => "Error! Invalid release type supplied"
  end.

(** ** How far a run gets, in terms of what the environment answers *)

Definition arrives_at_prerequisites (e : Env) (args : list string) : Prop :=
  accepts e args = true
  /\ Publish.is_help_token (hd "" args) = false
  /\ cd_toplevel e = 0.

Definition arrives_at_repository_check (e : Env) (args : list string) : Prop :=
  arrives_at_prerequisites e args /\ first_failure e = None.

Definition arrives_at_install (e : Env) (args : list string) : Prop :=
  arrives_at_repository_check e args
  /\ git_fetch e = 0 /\ snd (git_status e) = 0 /\ first_violation e = None.

Definition arrives_at_bump (e : Env) (args : list string) : Prop :=
  arrives_at_install e args /\ yarn_install e = 0.

Definition arrives_at_build (e : Env) (args : list string) : Prop :=
  arrives_at_bump e args /\ yarn_version e = 0.

Definition arrives_at_test (e : Env) (args : list string) : Prop :=
  arrives_at_build e args /\ yarn_build e = 0.

Definition arrives_at_signature_check (e : Env) (args : list string) : Prop :=
  arrives_at_test e args /\ yarn_test e = 0.

Definition arrives_at_push (e : Env) (args : list string) : Prop :=
  arrives_at_signature_check e args /\ reported_unsigned e = false.

(** The trace of a run up to the end of each step. *)
Definition trace_through_install : list Event :=
  trace_through_status
  ++ [ Echo "Installing dependencies according to lockfile";
       Exec ["yarn"; "install"; "--frozen-lockfile"] ].

Definition bump_events (e : Env) (args : list string) : list Event :=
  [ Echo ("Bumping package.json " ++ hd "" args ++ " version and tagging commit")%string;
    Exec (Publish.version_command (is_release_candidate e) (hd "" args)) ].

Definition trace_through_bump (e : Env) (args : list string) : list Event :=
  trace_through_install ++ bump_events e args.

Definition trace_through_build (e : Env) (args : list string) : list Event :=
  trace_through_bump e args ++ [ Echo "Building"; Exec ["yarn"; "run"; "build"] ].

Definition trace_through_tests (e : Env) (args : list string) : list Event :=
  trace_through_build e args ++ [ Echo "Running tests"; Exec ["yarn"; "run"; "test"] ].

Definition trace_through_signature (e : Env) (args : list string) : list Event :=
  trace_through_tests e args ++ signature_inspection e.

(** The script from each step on. *)
Module Rest.
Import Publish.

Definition from_publish (e : Env) : Script unit :=
  publish e ;; echo "Publish successful!" ;; echo "".

Definition from_release (e : Env) : Script unit :=
  release e ;; from_publish e.

Definition from_push (e : Env) : Script unit :=
  push e ;; from_release e.

Definition from_signature_check (e : Env) : Script unit :=
  verify_commit_is_signed e ;; from_push e.

Definition from_test (e : Env) : Script unit :=
  test e ;; from_signature_check e.

Definition from_build (e : Env) : Script unit :=
  build e ;; from_test e.

Definition from_bump (e : Env) (args : list string) : Script unit :=
  bump_version e (hd "" args) ;; from_build e.

Definition from_install (e : Env) (args : list string) : Script unit :=
  install_dependencies e ;; from_bump e args.

Definition from_repository_check (e : Env) (args : list string) : Script unit :=
  check_repository_state e ;; from_install e args.

Definition from_prerequisites (e : Env) (args : list string) : Script unit :=
  verify_prerequisites e ;; from_repository_check e args.

End Rest.

(** [m] goes on as [rest] after having produced [prefix]. *)
Definition continues (m : Script unit) (prefix : list Event) (rest : Script unit) : Prop :=
  events m = prefix ++ events rest /\ snd m = snd rest.

(** No command of step [s] is run in [t]. *)
Definition avoids (s : Step) (t : list Event) : Prop :=
  forall argv, In (Exec argv) t -> step_of argv <> Some s.

(** Every classified command of [t] belongs to step [s]. *)
Definition lives_at (s : Step) (t : list Event) : Prop :=
  forall argv s', In (Exec argv) t -> step_of argv = Some s' -> s' = s.

(** Every classified command of [t] belongs to one of the first [k] steps. *)
Definition below (k : nat) (t : list Event) : Prop :=
  forall argv s', In (Exec argv) t -> step_of argv = Some s' ->
    (code_order s' < k)%nat.

(** Every classified command of [t] belongs to step [s] or a later one. *)
Definition not_before (s : Step) (t : list Event) : Prop :=
  forall argv s', In (Exec argv) t -> step_of argv = Some s' ->
    (code_order s <= code_order s')%nat.

(** The earlier of two events never belongs to a later step. *)
Definition in_order (order : Step -> nat) (x y : Event) : Prop :=
  forall sx sy, step_of_event x = Some sx -> step_of_event y = Some sy ->
    (order sx <= order sy)%nat.

(** [m] is linear and runs no command of a step before [s]. *)
Definition ordered_from (s : Step) (m : Script unit) : Prop :=
  ForallOrdPairs (in_order code_order) (events m) /\ not_before s (events m).

(** A script that ends the run early does so with a non-zero code. *)
Definition fails_loudly (m : Script unit) : Prop :=
  forall code, snd m = inr code -> code <> 0.

(** ** The last steps of a run *)

Definition arrives_at_release (e : Env) (args : list string) : Prop :=
  arrives_at_push e args /\ git_push e = 0.

(** The release step lets the run go on: it is skipped (prerelease), it
    falls back to the manual instructions, or [hub release create]
    succeeds. *)
Definition release_step_passes (e : Env) : bool :=
  (is_release_candidate e =? 1)
  || hub_reported_missing e
  || (List.length (release_tags e) <? 2)%nat
  || (hub_release_create e =? 0).

Definition arrives_at_publish (e : Env) (args : list string) : Prop :=
  arrives_at_release e args /\ release_step_passes e = true.

(** Every gate of the script lets the run through. *)
Definition completes (e : Env) (args : list string) : Prop :=
  arrives_at_publish e args /\ yarn_publish e = 0.


Definition push_events : list Event :=
  [ Echo "Pushing git commit and tag"; Exec ["git"; "push"; "--follow-tags"] ].

Definition trace_through_push (e : Env) (args : list string) : list Event :=
  trace_through_signature e args ++ push_events.

Definition trace_through_release (e : Env) (args : list string) : list Event :=
  trace_through_push e args ++ events (Publish.release e).

Definition publish_events (e : Env) : list Event :=
  [ Echo "Publishing release";
    Exec (Publish.publish_command (is_release_candidate e)) ].

Definition trace_through_publish (e : Env) (args : list string) : list Event :=
  trace_through_release e args ++ publish_events e.

(** ** Patterns without metacharacters *)

Fixpoint dot_free (pattern : string) : bool :=
  match pattern with
  | EmptyString => true
  | String c rest => negb (Ascii.eqb c ".") && dot_free rest
  end.

Definition unanchored (pattern : string) : bool :=
  match pattern with
  | String c _ => negb (Ascii.eqb c "^")
  | EmptyString => true
  end.

(** [grep] takes the pattern as the text itself. *)
Definition plain (pattern : string) : bool :=
  unanchored pattern && dot_free pattern.

(** [line] begins with [x]. *)
Definition begins_with (x line : string) : Prop :=
  exists rest, line = (x ++ rest)%string.

(** Some line of [lines] holds the text [x]. *)
Definition some_line_holds (x : string) (lines : list string) : Prop :=
  exists line, In line lines /\ occurs x line.

(** ** Sample environments *)

Definition clean_status : list string :=
  [ "On branch master";
    "Your branch is up to date with 'origin/master'.";
    "";
    "nothing to commit, working tree clean" ].

Definition sample (irc whoami hub build create : Z)
                  (status signature tags : list string) : Env := {|
  is_release_candidate := irc;
  cd_toplevel := 0;
  npm_whoami := whoami;
  yarn_login := 0;
  which_hub := hub;
  GITHUB_TOKEN := Some "token";
  git_config_gpg_format := "ssh";
  git_config_signingkey := "/home/dev/.ssh/id_ed25519.pub";
  git_config_signingkey_local := "/home/dev/.ssh/id_ed25519.pub";
  git_config_gpgsign := "true";
  is_regular_file := fun _ => true;
  git_fetch := 0;
  git_status := (status, 0);
  yarn_install := 0;
  yarn_version := 0;
  yarn_build := build;
  yarn_test := 0;
  git_log_head := "4f2a9c1";
  git_show_signature := (signature, 0);
  git_push := 0;
  which_hub_release := (if hub =? 0 then ["/usr/local/bin/hub"] else [], hub);
  git_tag := tags;
  git_log_subjects := fun _ => ["Fix typo"; "Add option"];
  hub_release_create := create;
  yarn_publish := 0
|}.

(** Everything in place: logged in, signing set up, a clean and current
    master, every tool succeeding. *)
Definition ready (irc : Z) (tags : list string) : Env :=
  sample irc 0 0 0 0 clean_status ["G"] tags.

Definition two_releases : list string :=
  ["v1.3.0-rc.0"; "v1.3.1"; "v1.3.2-rc.0"; "v1.3.2"].

Definition three_releases : list string :=
  ["v1.3.0"; "v1.3.1"; "v1.3.2-rc.0"; "v1.3.2"].

(** Like [ready], with the answers of the tools that stop a run chosen
    one by one. *)
Definition faulty (irc cd fetch status_code install version push publish : Z)
                  (token : option string)
                  (signature which_release : list string * Z) : Env := {|
  is_release_candidate := irc;
  cd_toplevel := cd;
  npm_whoami := 0;
  yarn_login := 0;
  which_hub := 0;
  GITHUB_TOKEN := token;
  git_config_gpg_format := "ssh";
  git_config_signingkey := "/home/dev/.ssh/id_ed25519.pub";
  git_config_signingkey_local := "/home/dev/.ssh/id_ed25519.pub";
  git_config_gpgsign := "true";
  is_regular_file := fun _ => true;
  git_fetch := fetch;
  git_status := (clean_status, status_code);
  yarn_install := install;
  yarn_version := version;
  yarn_build := 0;
  yarn_test := 0;
  git_log_head := "4f2a9c1";
  git_show_signature := signature;
  git_push := push;
  which_hub_release := which_release;
  git_tag := three_releases;
  git_log_subjects := fun _ => ["Fix typo"; "Add option"];
  hub_release_create := 0;
  yarn_publish := publish
|}.

(** * Properties *)

Import Publish Rest.

(** ** The shell *)

Lemma bind_pass {A B : Type} (m : Script A) (k : A -> Script B) t a :
  m = (t, inl a) ->
  events (bind m k) = t ++ events (k a) /\ snd (bind m k) = snd (k a).
Proof.
  intros ->. unfold events, bind. destruct (k a) as [t' r]. split; reflexivity.
Qed.

Lemma bind_stop {A B : Type} (m : Script A) (k : A -> Script B) t code :
  m = (t, inr code) -> bind m k = (t, inr code).
Proof. intros ->. reflexivity. Qed.

Lemma bind_cases {A B : Type} (m : Script A) (k : A -> Script B) :
  (exists code, snd m = inr code /\ bind m k = (events m, inr code))
  \/ (exists a, snd m = inl a
               /\ events (bind m k) = events m ++ events (k a)
               /\ snd (bind m k) = snd (k a)).
Proof.
  destruct m as [t [a | code]].
  - right. exists a. split; [reflexivity |]. now apply bind_pass.
  - left. exists code. split; reflexivity.
Qed.

Lemma exec_pass argv status :
  status = 0 -> exec argv status = ([Exec argv], inl tt).
Proof. intros ->. reflexivity. Qed.

Lemma exec_stop argv status :
  status <> 0 -> exec argv status = ([Exec argv], inr status).
Proof.
  intros H. unfold exec, errexit, probe.
  destruct (Z.eqb_spec status 0) as [E | _]; [contradiction | reflexivity].
Qed.

Lemma announced_pass line argv status :
  status = 0 ->
  (echo line ;; exec argv status) = ([Echo line; Exec argv], inl tt).
Proof. intros ->. reflexivity. Qed.

Lemma announced_stop line argv status :
  status <> 0 ->
  (echo line ;; exec argv status) = ([Echo line; Exec argv], inr status).
Proof. intros H. rewrite (exec_stop argv status H). reflexivity. Qed.

Lemma events_echo_lines lines :
  echo_lines lines = (map Echo lines, inl tt).
Proof.
  induction lines as [| l rest IH]; [reflexivity |].
  cbn [echo_lines map]. rewrite IH. reflexivity.
Qed.

Lemma continues_refl m : continues m [] m.
Proof. split; reflexivity. Qed.

Lemma continues_step (m : Script unit) prefix (stage rest : Script unit) t :
  continues m prefix (stage ;; rest) ->
  stage = (t, inl tt) ->
  continues m (prefix ++ t) rest.
Proof.
  intros [Hev Hsnd] Hstage.
  destruct (bind_pass stage (fun _ => rest) t tt Hstage) as [Hev' Hsnd'].
  split.
  - rewrite Hev, Hev', app_assoc. reflexivity.
  - rewrite Hsnd. exact Hsnd'.
Qed.

Lemma continues_stop (m : Script unit) prefix (stage rest : Script unit) t code :
  continues m prefix (stage ;; rest) ->
  stage = (t, inr code) ->
  events m = prefix ++ t /\ status_of m = code.
Proof.
  intros [Hev Hsnd] Hstage.
  rewrite (bind_stop stage (fun _ => rest) t code Hstage) in Hev, Hsnd.
  split; [exact Hev |]. unfold status_of. rewrite Hsnd. reflexivity.
Qed.

(** ** Text *)

Lemma grep_status_zero pattern lines :
  (Text.grep_status pattern lines =? 0) = existsb (Text.line_matches pattern) lines.
Proof. unfold Text.grep_status. now destruct (existsb _ lines). Qed.

Lemma pipefail_zero left right :
  (Text.pipefail left right =? 0) = (left =? 0) && (right =? 0).
Proof.
  unfold Text.pipefail.
  destruct (Z.eqb_spec right 0) as [-> | H].
  - now rewrite andb_true_r.
  - rewrite andb_false_r. now apply Z.eqb_neq.
Qed.

(** ** The stages one by one *)

Lemma validate_pass e args :
  accepts e args = true -> validate_release_type e args = ([], inl tt).
Proof.
  unfold accepts, validate_release_type. intros H.
  destruct (is_release_candidate e =? 1); [reflexivity |].
  cbn in H. destruct args as [| a rest]; [discriminate H |].
  cbn in *. rewrite H. reflexivity.
Qed.

Lemma validate_stop e args :
  accepts e args = false ->
  validate_release_type e args
  = (Echo (validation_error args) :: Echo "" :: usage_events, inr 1).
Proof.
  unfold accepts, validate_release_type. intros H.
  apply orb_false_iff in H as [-> H].
  destruct args as [| a rest]; [reflexivity |].
  cbn in *. rewrite H. reflexivity.
Qed.

Lemma show_help_pass args :
  is_help_token (hd "" args) = false -> show_help args = ([], inl tt).
Proof. unfold show_help. intros ->. reflexivity. Qed.

Lemma show_help_stop args :
  is_help_token (hd "" args) = true -> show_help args = (usage_events, inr 0).
Proof. unfold show_help. intros ->. reflexivity. Qed.

Lemma enter_repository_pass e :
  cd_toplevel e = 0 ->
  enter_repository e = ([Exec ["git"; "rev-parse"; "--show-toplevel"]], inl tt).
Proof. unfold enter_repository. intros ->. reflexivity. Qed.

Lemma enter_repository_stop e :
  cd_toplevel e <> 0 ->
  enter_repository e
  = ([Exec ["git"; "rev-parse"; "--show-toplevel"]], inr (cd_toplevel e)).
Proof.
  unfold enter_repository, errexit. intros H.
  destruct (Z.eqb_spec (cd_toplevel e) 0); [contradiction | reflexivity].
Qed.

Lemma verify_prerequisites_stop e p :
  first_failure e = Some p ->
  verify_prerequisites e
  = (Echo "Verifying prerequisites..." :: probes_through p ++ map Echo (remediation e p),
     inr 1).
Proof.
  unfold first_failure, verify_prerequisites, all_prerequisites. cbn [find holds].
  destruct (npm_whoami e =? 0); cbn [negb];
    [| intros [= <-]; reflexivity ].
  destruct (yarn_login e =? 0); cbn [negb];
    [| intros [= <-]; reflexivity ].
  destruct (which_hub e =? 0); cbn [negb];
    [| intros [= <-]; reflexivity ].
  destruct (token_unset e); cbn [negb];
    [ intros [= <-]; reflexivity |].
  destruct (String.eqb (git_config_gpg_format e) "ssh"); cbn [negb];
    [| intros [= <-]; reflexivity ].
  destruct (Text.is_empty (git_config_signingkey e)); cbn [negb];
    [ intros [= <-]; reflexivity |].
  destruct (is_regular_file e (git_config_signingkey_local e)); cbn [negb];
    [| intros [= <-]; reflexivity ].
  destruct (String.eqb (git_config_gpgsign e) "true"); cbn [negb];
    [| intros [= <-]; reflexivity ].
  discriminate.
Qed.

Lemma verify_prerequisites_pass e :
  first_failure e = None ->
  verify_prerequisites e
  = (Echo "Verifying prerequisites..."
     :: flat_map probe_of all_prerequisites
     ++ [Echo "All prerequisites verified successfully!"],
     inl tt).
Proof.
  unfold first_failure, verify_prerequisites, all_prerequisites. cbn [find holds].
  destruct (npm_whoami e =? 0); cbn [negb]; [| discriminate ].
  destruct (yarn_login e =? 0); cbn [negb]; [| discriminate ].
  destruct (which_hub e =? 0); cbn [negb]; [| discriminate ].
  destruct (token_unset e); cbn [negb]; [ discriminate |].
  destruct (String.eqb (git_config_gpg_format e) "ssh"); cbn [negb]; [| discriminate ].
  destruct (Text.is_empty (git_config_signingkey e)); cbn [negb]; [ discriminate |].
  destruct (is_regular_file e (git_config_signingkey_local e)); cbn [negb]; [| discriminate ].
  destruct (String.eqb (git_config_gpgsign e) "true"); cbn [negb]; [| discriminate ].
  reflexivity.
Qed.

Lemma check_repository_state_fetch_stop e :
  git_fetch e <> 0 ->
  check_repository_state e
  = ([Echo "Fetching git remotes"; Exec ["git"; "fetch"]], inr (git_fetch e)).
Proof.
  intros H. unfold check_repository_state.
  rewrite (exec_stop _ _ H). reflexivity.
Qed.

Lemma check_repository_state_status_stop e :
  git_fetch e = 0 -> snd (git_status e) <> 0 ->
  check_repository_state e
  = ([Echo "Fetching git remotes"; Exec ["git"; "fetch"]; Exec ["git"; "status"]],
     inr (snd (git_status e))).
Proof.
  intros Hf Hs. unfold check_repository_state.
  rewrite (exec_pass _ _ Hf), (exec_stop _ _ Hs). reflexivity.
Qed.

Lemma check_repository_state_stop e v :
  git_fetch e = 0 -> snd (git_status e) = 0 -> first_violation e = Some v ->
  check_repository_state e
  = ([Echo "Fetching git remotes"; Exec ["git"; "fetch"]; Exec ["git"; "status"];
      Echo (violation_message v)], inr 1).
Proof.
  intros Hf Hs. unfold check_repository_state.
  rewrite (exec_pass _ _ Hf), (exec_pass _ _ Hs).
  unfold first_violation, on_release_branch, up_to_date_with_remote,
    working_tree_clean, status_says.
  rewrite !grep_status_zero.
  destruct (existsb (Text.line_matches "On branch master") _); cbn [negb];
    [| intros [= <-]; reflexivity ].
  destruct (existsb (Text.line_matches "Your branch is up to date with 'origin/master'.") _);
    cbn [negb]; [| intros [= <-]; reflexivity ].
  destruct (existsb (Text.line_matches "working tree clean") _); cbn [negb];
    [| intros [= <-]; reflexivity ].
  discriminate.
Qed.

Lemma check_repository_state_pass e :
  git_fetch e = 0 -> snd (git_status e) = 0 -> first_violation e = None ->
  check_repository_state e
  = ([Echo "Fetching git remotes"; Exec ["git"; "fetch"]; Exec ["git"; "status"]],
     inl tt).
Proof.
  intros Hf Hs. unfold check_repository_state.
  rewrite (exec_pass _ _ Hf), (exec_pass _ _ Hs).
  unfold first_violation, on_release_branch, up_to_date_with_remote,
    working_tree_clean, status_says.
  rewrite !grep_status_zero.
  destruct (existsb (Text.line_matches "On branch master") _); cbn [negb];
    [| discriminate ].
  destruct (existsb (Text.line_matches "Your branch is up to date with 'origin/master'.") _);
    cbn [negb]; [| discriminate ].
  destruct (existsb (Text.line_matches "working tree clean") _); cbn [negb];
    [| discriminate ].
  reflexivity.
Qed.

Lemma signature_test e :
  (Text.pipefail (snd (git_show_signature e))
                 (Text.grep_status "N" (fst (git_show_signature e))) =? 0)
  = reported_unsigned e.
Proof. unfold reported_unsigned. now rewrite pipefail_zero, grep_status_zero. Qed.

Lemma verify_commit_is_signed_stop e :
  reported_unsigned e = true ->
  verify_commit_is_signed e
  = (signature_inspection e ++ map Echo (unsigned_message e), inr 1).
Proof.
  intros H. unfold verify_commit_is_signed. rewrite signature_test, H. reflexivity.
Qed.

Lemma verify_commit_is_signed_pass e :
  reported_unsigned e = false ->
  verify_commit_is_signed e = (signature_inspection e, inl tt).
Proof.
  intros H. unfold verify_commit_is_signed. rewrite signature_test, H. reflexivity.
Qed.

(** ** How far a run gets: from the environment to the trace *)

Lemma main_from_prerequisites e args :
  arrives_at_prerequisites e args ->
  continues (main e args) [Exec ["git"; "rev-parse"; "--show-toplevel"]]
            (from_prerequisites e args).
Proof.
  intros (Hv & Hh & Hcd).
  pose proof (continues_refl (main e args)) as C.
  pose proof (continues_step _ _ _ _ _ C (validate_pass e args Hv)) as C1.
  pose proof (continues_step _ _ _ _ _ C1 (show_help_pass args Hh)) as C2.
  exact (continues_step _ _ _ _ _ C2 (enter_repository_pass e Hcd)).
Qed.

Lemma main_from_repository_check e args :
  arrives_at_repository_check e args ->
  continues (main e args) trace_through_prerequisites (from_repository_check e args).
Proof.
  intros [H Hp].
  exact (continues_step _ _ _ _ _ (main_from_prerequisites e args H)
                        (verify_prerequisites_pass e Hp)).
Qed.

Lemma main_from_install e args :
  arrives_at_install e args ->
  continues (main e args) trace_through_status (from_install e args).
Proof.
  intros (H & Hf & Hs & Hv).
  exact (continues_step _ _ _ _ _ (main_from_repository_check e args H)
                        (check_repository_state_pass e Hf Hs Hv)).
Qed.

Lemma main_from_bump e args :
  arrives_at_bump e args ->
  continues (main e args) trace_through_install (from_bump e args).
Proof.
  intros [H Hi].
  exact (continues_step _ _ _ _ _ (main_from_install e args H)
                        (announced_pass _ _ _ Hi)).
Qed.

Lemma main_from_build e args :
  arrives_at_build e args ->
  continues (main e args) (trace_through_bump e args) (from_build e).
Proof.
  intros [H Hb].
  exact (continues_step _ _ _ _ _ (main_from_bump e args H)
                        (announced_pass _ _ _ Hb)).
Qed.

Lemma main_from_test e args :
  arrives_at_test e args ->
  continues (main e args) (trace_through_build e args) (from_test e).
Proof.
  intros [H Hb].
  exact (continues_step _ _ _ _ _ (main_from_build e args H)
                        (announced_pass _ _ _ Hb)).
Qed.

Lemma main_from_signature_check e args :
  arrives_at_signature_check e args ->
  continues (main e args) (trace_through_tests e args) (from_signature_check e).
Proof.
  intros [H Ht].
  exact (continues_step _ _ _ _ _ (main_from_test e args H)
                        (announced_pass _ _ _ Ht)).
Qed.

Lemma main_from_push e args :
  arrives_at_push e args ->
  continues (main e args) (trace_through_signature e args) (from_push e).
Proof.
  intros [H Hs].
  exact (continues_step _ _ _ _ _ (main_from_signature_check e args H)
                        (verify_commit_is_signed_pass e Hs)).
Qed.

(** ** Which step the commands of a stage belong to *)

Lemma lives_nil s : lives_at s [].
Proof. intros argv s' []. Qed.

Lemma lives_app s t1 t2 :
  lives_at s t1 -> lives_at s t2 -> lives_at s (t1 ++ t2).
Proof.
  intros H1 H2 argv s' Hin. apply in_app_or in Hin as [Hin | Hin]; eauto.
Qed.

Lemma lives_echo_cons s line t : lives_at s t -> lives_at s (Echo line :: t).
Proof. intros H argv s' [Hin | Hin]; [discriminate Hin | eauto]. Qed.

Lemma lives_echo_n_cons s text t : lives_at s t -> lives_at s (EchoN text :: t).
Proof. intros H argv s' [Hin | Hin]; [discriminate Hin | eauto]. Qed.

Lemma lives_exec_cons s argv t :
  (forall s', step_of argv = Some s' -> s' = s) ->
  lives_at s t -> lives_at s (Exec argv :: t).
Proof.
  intros Ha H argv' s' [Hin | Hin]; [| eauto].
  injection Hin as <-. apply Ha.
Qed.

Lemma lives_bind {A B : Type} s (m : Script A) (k : A -> Script B) :
  lives_at s (events m) -> (forall a, lives_at s (events (k a))) ->
  lives_at s (events (bind m k)).
Proof.
  intros Hm Hk.
  destruct (bind_cases m k) as [(code & _ & ->) | (a & _ & -> & _)].
  - exact Hm.
  - apply lives_app; auto.
Qed.

Lemma lives_when s cond body :
  lives_at s (events body) -> lives_at s (events (when cond body)).
Proof. destruct cond; [auto | intros _; apply lives_nil]. Qed.

Lemma lives_echo_lines s lines : lives_at s (events (echo_lines lines)).
Proof.
  rewrite events_echo_lines. cbn [events fst].
  induction lines; [apply lives_nil | now apply lives_echo_cons].
Qed.

Lemma lives_errexit s status : lives_at s (events (errexit status)).
Proof. unfold errexit. destruct (status =? 0); apply lives_nil. Qed.

Lemma lives_exec s argv status :
  (forall s', step_of argv = Some s' -> s' = s) ->
  lives_at s (events (exec argv status)).
Proof.
  intros H. apply lives_bind.
  - apply lives_exec_cons; [exact H | apply lives_nil].
  - intros _. apply lives_errexit.
Qed.

Ltac belongs :=
  let s' := fresh "s'" in
  let H := fresh "H" in
  intros s' H; cbn in H; congruence.

(** Decomposes a stage built from the shell's constructs. *)
Ltac stage_lives :=
  repeat first
    [ apply lives_nil
    | apply lives_echo_lines
    | apply lives_errexit
    | apply lives_echo_cons
    | apply lives_echo_n_cons
    | apply lives_exec_cons; [belongs |]
    | apply lives_exec; [belongs]
    | apply lives_when
    | apply lives_bind; [| intros ?; cbv beta zeta ] ].

Lemma lives_validate s e args : lives_at s (events (validate_release_type e args)).
Proof.
  unfold validate_release_type. cbv zeta. apply lives_when. apply lives_bind.
  - unfold echo_help. stage_lives.
  - intros _. destruct (is_release_type (hd "" args)); unfold echo_help; stage_lives.
Qed.

Lemma lives_show_help s args : lives_at s (events (show_help args)).
Proof. unfold show_help, echo_help. stage_lives. Qed.

Lemma lives_enter_repository s e : lives_at s (events (enter_repository e)).
Proof. unfold enter_repository. stage_lives. Qed.

Lemma lives_verify_prerequisites e :
  lives_at CheckingPrerequisites (events (verify_prerequisites e)).
Proof. unfold verify_prerequisites. stage_lives. Qed.

Lemma lives_check_repository_state e :
  lives_at CheckingRepoState (events (check_repository_state e)).
Proof. unfold check_repository_state. stage_lives. Qed.

Lemma lives_install_dependencies e :
  lives_at Installing (events (install_dependencies e)).
Proof. unfold install_dependencies. stage_lives. Qed.

Lemma version_command_step irc release_type s' :
  step_of (version_command irc release_type) = Some s' -> s' = Bumping.
Proof.
  unfold version_command.
  destruct (irc =? 1); [destruct (Text.is_empty release_type) |];
    cbn; congruence.
Qed.

Lemma lives_bump_version e release_type :
  lives_at Bumping (events (bump_version e release_type)).
Proof.
  unfold bump_version. apply lives_bind; [stage_lives |].
  intros _. apply lives_exec. intros s'. apply version_command_step.
Qed.

Lemma lives_build e : lives_at Building (events (build e)).
Proof. unfold build. stage_lives. Qed.

Lemma lives_test e : lives_at Testing (events (test e)).
Proof. unfold test. stage_lives. Qed.

Lemma lives_verify_commit_is_signed e :
  lives_at VerifyingSignature (events (verify_commit_is_signed e)).
Proof. unfold verify_commit_is_signed. stage_lives. Qed.

Lemma lives_push e : lives_at Pushing (events (push e)).
Proof. unfold push. stage_lives. Qed.

Lemma lives_create_github_release e :
  lives_at CreatingRelease (events (create_github_release e)).
Proof.
  unfold create_github_release, create_github_release_fallback.
  apply lives_bind; [stage_lives |]. intros _.
  destruct (Text.pipefail _ _ =? 0); [stage_lives |].
  apply lives_bind; [stage_lives |]. intros _. cbv zeta.
  destruct (negb _); stage_lives.
Qed.

Lemma lives_release e : lives_at CreatingRelease (events (release e)).
Proof. unfold release. apply lives_when, lives_create_github_release. Qed.

Lemma lives_publish e : lives_at Publishing (events (publish e)).
Proof.
  unfold publish. apply lives_bind; [stage_lives |].
  intros _. apply lives_exec. unfold publish_command.
  destruct (is_release_candidate e =? 1); belongs.
Qed.

(** ** Linearity *)

Lemma pairs_app {A : Type} (R : A -> A -> Prop) l1 l2 :
  ForallOrdPairs R l1 -> ForallOrdPairs R l2 ->
  (forall x y, In x l1 -> In y l2 -> R x y) ->
  ForallOrdPairs R (l1 ++ l2).
Proof.
  induction 1 as [| a l Ha Hl IH]; intros H2 Hx; [exact H2 |].
  cbn. constructor.
  - apply Forall_app. split; [exact Ha |].
    apply Forall_forall. intros y Hy. apply Hx; [now left | exact Hy].
  - apply IH; [exact H2 |]. intros x y Hx' Hy. apply Hx; [now right | exact Hy].
Qed.



Lemma pairs_of_lives s t :
  lives_at s t -> ForallOrdPairs (in_order code_order) t.
Proof.
  induction t as [| x t IH]; intros H; constructor.
  - apply Forall_forall. intros y Hy sx sy Hsx Hsy.
    destruct x as [| | a]; try discriminate Hsx.
    destruct y as [| | b]; try discriminate Hsy.
    rewrite (H a sx (or_introl eq_refl) Hsx).
    rewrite (H b sy (or_intror Hy) Hsy). apply le_n.
  - apply IH. intros argv s' Hin. apply H. now right.
Qed.

Lemma ordered_of_lives s (m : Script unit) :
  lives_at s (events m) -> ordered_from s m.
Proof.
  intros H. split; [exact (pairs_of_lives s _ H) |].
  intros argv s' Hin Hs. rewrite (H argv s' Hin Hs). apply le_n.
Qed.

Lemma ordered_bind s s' (m rest : Script unit) :
  lives_at s (events m) -> (code_order s <= code_order s')%nat ->
  ordered_from s' rest ->
  ordered_from s (m ;; rest).
Proof.
  intros Hm Hle [Hpairs Hnb].
  destruct (bind_cases m (fun _ => rest)) as [(code & _ & E) | (a & _ & E & _)].
  - rewrite E. now apply (ordered_of_lives s (events m, inr code)).
  - split; rewrite E.
    + apply pairs_app; [exact (pairs_of_lives s _ Hm) | exact Hpairs |].
      intros x y Hx Hy sx sy Hsx Hsy.
      destruct x as [| | a']; try discriminate Hsx.
      destruct y as [| | b]; try discriminate Hsy.
      rewrite (Hm a' sx Hx Hsx). etransitivity; [exact Hle |].
      exact (Hnb b sy Hy Hsy).
    + intros argv s0 Hin Hs. apply in_app_or in Hin as [Hin | Hin].
      * rewrite (Hm argv s0 Hin Hs). apply le_n.
      * etransitivity; [exact Hle |]. exact (Hnb argv s0 Hin Hs).
Qed.

Lemma ordered_from_publish e : ordered_from Publishing (from_publish e).
Proof.
  apply ordered_of_lives. unfold from_publish.
  apply lives_bind; [apply lives_publish | intros _; stage_lives].
Qed.

Lemma ordered_from_release e : ordered_from CreatingRelease (from_release e).
Proof.
  apply (ordered_bind _ Publishing);
    [apply lives_release | cbn; lia | apply ordered_from_publish].
Qed.

Lemma ordered_from_push e : ordered_from Pushing (from_push e).
Proof.
  apply (ordered_bind _ CreatingRelease);
    [apply lives_push | cbn; lia | apply ordered_from_release].
Qed.

Lemma ordered_from_signature_check e :
  ordered_from VerifyingSignature (from_signature_check e).
Proof.
  apply (ordered_bind _ Pushing);
    [apply lives_verify_commit_is_signed | cbn; lia | apply ordered_from_push].
Qed.

Lemma ordered_from_test e : ordered_from Testing (from_test e).
Proof.
  apply (ordered_bind _ VerifyingSignature);
    [apply lives_test | cbn; lia | apply ordered_from_signature_check].
Qed.

Lemma ordered_from_build e : ordered_from Building (from_build e).
Proof.
  apply (ordered_bind _ Testing);
    [apply lives_build | cbn; lia | apply ordered_from_test].
Qed.






(** ** How far a run gets: from the trace to the environment *)

Lemma reaches_app s t1 t2 :
  reaches s (t1 ++ t2) -> reaches s t1 \/ reaches s t2.
Proof.
  intros (argv & Hin & Hs). apply in_app_or in Hin as [Hin | Hin];
    [left | right]; exists argv; auto.
Qed.

Lemma avoids_reaches s t : avoids s t -> ~ reaches s t.
Proof. intros H (argv & Hin & Hs). exact (H argv Hin Hs). Qed.

Lemma avoids_of_lives s s0 t : lives_at s0 t -> s <> s0 -> avoids s t.
Proof. intros H Hne argv Hin Hs. apply Hne. exact (H argv s Hin Hs). Qed.

Lemma avoids_of_silent s t : (forall s0, lives_at s0 t) -> avoids s t.
Proof.
  intros H argv Hin Hs.
  pose proof (H CheckingPrerequisites argv s Hin Hs) as H1.
  pose proof (H CheckingRepoState argv s Hin Hs) as H2.
  congruence.
Qed.

Lemma avoids_of_below s k t : below k t -> (k <= code_order s)%nat -> avoids s t.
Proof. intros H Hle argv Hin Hs. specialize (H argv s Hin Hs). lia. Qed.

Lemma below_app k t1 t2 : below k t1 -> below k t2 -> below k (t1 ++ t2).
Proof.
  intros H1 H2 argv s' Hin. apply in_app_or in Hin as [Hin | Hin]; eauto.
Qed.

Lemma below_of_lives s k t : lives_at s t -> (code_order s < k)%nat -> below k t.
Proof. intros H Hlt argv s' Hin Hs. now rewrite (H argv s' Hin Hs). Qed.

Lemma below_weaken k k' t : below k t -> (k <= k')%nat -> below k' t.
Proof. intros H Hle argv s' Hin Hs. specialize (H argv s' Hin Hs). lia. Qed.

(** If a run that has come to [stage] runs a command of a step that neither
    the trace so far nor [stage] holds, the stage has passed. *)
Lemma arrival s (m : Script unit) prefix (stage rest : Script unit) :
  continues m prefix (stage ;; rest) ->
  avoids s prefix -> avoids s (events stage) ->
  reaches s (events m) ->
  snd stage = inl tt /\ reaches s (events rest).
Proof.
  intros [Hev _] Hprefix Hstage Hreach. rewrite Hev in Hreach.
  apply reaches_app in Hreach as [Hreach | Hreach];
    [now apply avoids_reaches in Hprefix |].
  destruct (bind_cases stage (fun _ => rest)) as [(code & _ & E) | ([] & Hsnd & E & _)].
  - rewrite E in Hreach. now apply avoids_reaches in Hstage.
  - rewrite E in Hreach. apply reaches_app in Hreach as [Hreach | Hreach];
      [now apply avoids_reaches in Hstage | auto].
Qed.

Lemma validate_passed e args :
  snd (validate_release_type e args) = inl tt -> accepts e args = true.
Proof.
  destruct (accepts e args) eqn:E; [reflexivity |].
  rewrite (validate_stop e args E). discriminate.
Qed.

Lemma show_help_passed args :
  snd (show_help args) = inl tt -> is_help_token (hd "" args) = false.
Proof.
  destruct (is_help_token (hd "" args)) eqn:E; [| reflexivity].
  rewrite (show_help_stop args E). discriminate.
Qed.

Lemma enter_repository_passed e :
  snd (enter_repository e) = inl tt -> cd_toplevel e = 0.
Proof.
  destruct (Z.eq_dec (cd_toplevel e) 0) as [E | E]; [auto |].
  rewrite (enter_repository_stop e E). discriminate.
Qed.

Lemma verify_prerequisites_passed e :
  snd (verify_prerequisites e) = inl tt -> first_failure e = None.
Proof.
  destruct (first_failure e) as [p |] eqn:E; [| reflexivity].
  rewrite (verify_prerequisites_stop e p E). discriminate.
Qed.

Lemma check_repository_state_passed e :
  snd (check_repository_state e) = inl tt ->
  git_fetch e = 0 /\ snd (git_status e) = 0 /\ first_violation e = None.
Proof.
  destruct (Z.eq_dec (git_fetch e) 0) as [Hf | Hf];
    [| rewrite (check_repository_state_fetch_stop e Hf); discriminate ].
  destruct (Z.eq_dec (snd (git_status e)) 0) as [Hs | Hs];
    [| rewrite (check_repository_state_status_stop e Hf Hs); discriminate ].
  destruct (first_violation e) as [v |] eqn:Hv; [| auto ].
  rewrite (check_repository_state_stop e v Hf Hs Hv). discriminate.
Qed.

Lemma announced_passed line argv status :
  snd (echo line ;; exec argv status) = inl tt -> status = 0.
Proof.
  destruct (Z.eq_dec status 0) as [E | E]; [auto |].
  rewrite (announced_stop line argv status E). discriminate.
Qed.

Lemma verify_commit_is_signed_passed e :
  snd (verify_commit_is_signed e) = inl tt -> reported_unsigned e = false.
Proof.
  destruct (reported_unsigned e) eqn:E; [| reflexivity].
  rewrite (verify_commit_is_signed_stop e E). discriminate.
Qed.

(** The traces up to each step hold commands of earlier steps only. *)

Lemma below_entry k : below k [Exec ["git"; "rev-parse"; "--show-toplevel"]].
Proof. intros argv s' [[= <-] | []]. cbn. discriminate. Qed.

Lemma below_through_prerequisites : below 1 trace_through_prerequisites.
Proof.
  apply (below_of_lives CheckingPrerequisites); [| cbn; lia].
  cbn. stage_lives.
Qed.

Lemma below_through_status : below 2 trace_through_status.
Proof.
  apply below_app; [apply (below_weaken 1); [apply below_through_prerequisites | lia] |].
  apply (below_of_lives CheckingRepoState); [stage_lives | cbn; lia].
Qed.

Lemma below_through_install : below 3 trace_through_install.
Proof.
  apply below_app; [apply (below_weaken 2); [apply below_through_status | lia] |].
  apply (below_of_lives Installing); [stage_lives | cbn; lia].
Qed.

Lemma below_through_bump e args : below 4 (trace_through_bump e args).
Proof.
  apply below_app; [apply (below_weaken 3); [apply below_through_install | lia] |].
  apply (below_of_lives Bumping); [| cbn; lia].
  apply lives_echo_cons, lives_exec_cons; [| apply lives_nil].
  intros s'. apply version_command_step.
Qed.

Lemma below_through_build e args : below 5 (trace_through_build e args).
Proof.
  apply below_app; [apply (below_weaken 4); [apply below_through_bump | lia] |].
  apply (below_of_lives Building); [stage_lives | cbn; lia].
Qed.

Lemma below_through_tests e args : below 6 (trace_through_tests e args).
Proof.
  apply below_app; [apply (below_weaken 5); [apply below_through_build | lia] |].
  apply (below_of_lives Testing); [stage_lives | cbn; lia].
Qed.

Lemma below_through_signature e args : below 7 (trace_through_signature e args).
Proof.
  apply below_app; [apply (below_weaken 6); [apply below_through_tests | lia] |].
  apply (below_of_lives VerifyingSignature); [| cbn; lia].
  unfold signature_inspection. stage_lives.
Qed.

(** A run that gets to a step has passed everything before it. *)

Lemma reached_prerequisites e args s :
  reaches s (trace e args) -> arrives_at_prerequisites e args.
Proof.
  intros Hreach. unfold trace in Hreach.
  pose proof (continues_refl (main e args)) as C0.
  destruct (arrival s _ _ (validate_release_type e args) _ C0) as [Hv _];
    [ intros argv [] | apply avoids_of_silent; intros; apply lives_validate
    | exact Hreach | ].
  apply validate_passed in Hv.
  pose proof (continues_step _ _ _ _ _ C0 (validate_pass e args Hv)) as C1.
  destruct (arrival s _ _ (show_help args) _ C1) as [Hh _];
    [ intros argv [] | apply avoids_of_silent; intros; apply lives_show_help
    | exact Hreach | ].
  apply show_help_passed in Hh.
  pose proof (continues_step _ _ _ _ _ C1 (show_help_pass args Hh)) as C2.
  destruct (arrival s _ _ (enter_repository e) _ C2) as [Hcd _];
    [ intros argv [] | apply avoids_of_silent; intros; apply lives_enter_repository
    | exact Hreach | ].
  apply enter_repository_passed in Hcd.
  repeat split; assumption.
Qed.

Lemma reached_repository_check e args s :
  reaches s (trace e args) -> (1 <= code_order s)%nat ->
  arrives_at_repository_check e args.
Proof.
  intros Hreach Hle.
  pose proof (reached_prerequisites e args s Hreach) as H.
  destruct (arrival s _ _ (verify_prerequisites e) _ (main_from_prerequisites e args H))
    as [Hp _];
    [ apply (avoids_of_below s 0); [apply below_entry | lia]
    | apply (avoids_of_lives s CheckingPrerequisites);
        [apply lives_verify_prerequisites | intros ->; cbn in Hle; lia]
    | exact Hreach | ].
  split; [exact H | now apply verify_prerequisites_passed].
Qed.

Lemma reached_install e args s :
  reaches s (trace e args) -> (2 <= code_order s)%nat ->
  arrives_at_install e args.
Proof.
  intros Hreach Hle.
  assert (H : arrives_at_repository_check e args)
    by (apply (reached_repository_check e args s); [exact Hreach | lia]).
  destruct (arrival s _ _ (check_repository_state e) _
                    (main_from_repository_check e args H)) as [Hp _];
    [ apply (avoids_of_below s 1); [apply below_through_prerequisites | lia]
    | apply (avoids_of_lives s CheckingRepoState);
        [apply lives_check_repository_state | intros ->; cbn in Hle; lia]
    | exact Hreach | ].
  split; [exact H | now apply check_repository_state_passed].
Qed.

Lemma reached_bump e args s :
  reaches s (trace e args) -> (3 <= code_order s)%nat ->
  arrives_at_bump e args.
Proof.
  intros Hreach Hle.
  assert (H : arrives_at_install e args)
    by (apply (reached_install e args s); [exact Hreach | lia]).
  destruct (arrival s _ _ (install_dependencies e) _ (main_from_install e args H))
    as [Hp _];
    [ apply (avoids_of_below s 2); [apply below_through_status | lia]
    | apply (avoids_of_lives s Installing);
        [apply lives_install_dependencies | intros ->; cbn in Hle; lia]
    | exact Hreach | ].
  split; [exact H | exact (announced_passed _ _ _ Hp)].
Qed.

Lemma reached_build e args s :
  reaches s (trace e args) -> (4 <= code_order s)%nat ->
  arrives_at_build e args.
Proof.
  intros Hreach Hle.
  assert (H : arrives_at_bump e args)
    by (apply (reached_bump e args s); [exact Hreach | lia]).
  destruct (arrival s _ _ (bump_version e (hd "" args)) _ (main_from_bump e args H))
    as [Hp _];
    [ apply (avoids_of_below s 3); [apply below_through_install | lia]
    | apply (avoids_of_lives s Bumping);
        [apply lives_bump_version | intros ->; cbn in Hle; lia]
    | exact Hreach | ].
  split; [exact H | exact (announced_passed _ _ _ Hp)].
Qed.

Lemma reached_test e args s :
  reaches s (trace e args) -> (5 <= code_order s)%nat ->
  arrives_at_test e args.
Proof.
  intros Hreach Hle.
  assert (H : arrives_at_build e args)
    by (apply (reached_build e args s); [exact Hreach | lia]).
  destruct (arrival s _ _ (build e) _ (main_from_build e args H)) as [Hp _];
    [ apply (avoids_of_below s 4); [apply below_through_bump | lia]
    | apply (avoids_of_lives s Building);
        [apply lives_build | intros ->; cbn in Hle; lia]
    | exact Hreach | ].
  split; [exact H | exact (announced_passed _ _ _ Hp)].
Qed.

Lemma reached_signature_check e args s :
  reaches s (trace e args) -> (6 <= code_order s)%nat ->
  arrives_at_signature_check e args.
Proof.
  intros Hreach Hle.
  assert (H : arrives_at_test e args)
    by (apply (reached_test e args s); [exact Hreach | lia]).
  destruct (arrival s _ _ (test e) _ (main_from_test e args H)) as [Hp _];
    [ apply (avoids_of_below s 5); [apply below_through_build | lia]
    | apply (avoids_of_lives s Testing);
        [apply lives_test | intros ->; cbn in Hle; lia]
    | exact Hreach | ].
  split; [exact H | exact (announced_passed _ _ _ Hp)].
Qed.

Lemma reached_push e args s :
  reaches s (trace e args) -> (7 <= code_order s)%nat ->
  arrives_at_push e args.
Proof.
  intros Hreach Hle.
  assert (H : arrives_at_signature_check e args)
    by (apply (reached_signature_check e args s); [exact Hreach | lia]).
  destruct (arrival s _ _ (verify_commit_is_signed e) _
                    (main_from_signature_check e args H)) as [Hp _];
    [ apply (avoids_of_below s 6); [apply below_through_tests | lia]
    | apply (avoids_of_lives s VerifyingSignature);
        [apply lives_verify_commit_is_signed | intros ->; cbn in Hle; lia]
    | exact Hreach | ].
  split; [exact H | now apply verify_commit_is_signed_passed].
Qed.

(** ** Whole runs *)

Lemma run_stops (e : Env) args prefix (stage rest : Script unit) t code :
  continues (main e args) prefix (stage ;; rest) ->
  stage = (t, inr code) ->
  run e args = (prefix ++ t, code).
Proof.
  intros C Hstage.
  destruct (continues_stop _ _ _ _ _ _ C Hstage) as [Hev Hst].
  unfold run, trace, exit_code. now rewrite Hev, Hst.
Qed.

Lemma trace_of_run e args t code : run e args = (t, code) -> trace e args = t.
Proof. intros H. exact (f_equal fst H). Qed.

Lemma announced_events line argv status :
  events (echo line ;; exec argv status) = [Echo line; Exec argv].
Proof.
  destruct (Z.eq_dec status 0) as [E | E].
  - now rewrite (announced_pass _ _ _ E).
  - now rewrite (announced_stop _ _ _ E).
Qed.

Lemma help_token_is_no_release_type token :
  is_help_token token = true -> is_release_type token = false.
Proof.
  unfold is_help_token. intros H.
  apply orb_true_iff in H as [H | H]; [apply orb_true_iff in H as [H | H] |];
    apply String.eqb_eq in H; subst; reflexivity.
Qed.

(** In a prerelease run the help request is served: the usage text and
    exit code 0. *)
Lemma help_in_prerelease e args :
  is_release_candidate e = 1 -> is_help_token (hd "" args) = true ->
  run e args = (usage_events, 0).
Proof.
  intros Hrc Hh.
  assert (Hv : accepts e args = true) by (unfold accepts; now rewrite Hrc).
  pose proof (continues_step _ _ _ _ _ (continues_refl (main e args))
                             (validate_pass e args Hv)) as C.
  exact (run_stops e args _ _ _ _ _ C (show_help_stop args Hh)).
Qed.

(** C9: in a run that is not a prerelease run, a release-type argument that
    is absent, or that is none of patch, minor and major, makes the script
    print an error line, an empty line and the usage text, and exit with
    code 1; nothing else happens. *)
Theorem invalid_release_type_rejected e args :
  is_release_candidate e <> 1 ->
  (forall t, release_type_argument args = Some t ->
             t <> "patch" /\ t <> "minor" /\ t <> "major") ->
  run e args = (Echo (validation_error args) :: Echo "" :: usage_events, 1).
Proof.
  intros Hrc Harg.
  assert (Hv : accepts e args = false).
  { unfold accepts. apply Z.eqb_neq in Hrc. rewrite Hrc. cbn [orb].
    destruct args as [| t rest]; [reflexivity |].
    destruct (Harg t eq_refl) as (Hp & Hm & HM).
    unfold is_release_type. cbn [hd].
    apply String.eqb_neq in Hp, Hm, HM. now rewrite Hp, Hm, HM. }
  exact (run_stops e args _ _ _ _ _ (continues_refl (main e args))
                   (validate_stop e args Hv)).
Qed.

Lemma invalid_release_type_rejected_witness :
  run (ready 0 two_releases) ["feature"]
  = (Echo "Error! Invalid release type supplied" :: Echo "" :: usage_events, 1).
Proof.
  apply (invalid_release_type_rejected (ready 0 two_releases) ["feature"]).
  - cbn. lia.
  - intros t [= <-]. repeat split; discriminate.
Defined.

(** C2 (defect of the script): outside a prerelease run, a help token as
    first argument does not get the help: the validation of the release
    type, which comes first in the script, rejects it with the
    invalid-release-type error and exit code 1. *)
Theorem help_rejected_outside_prerelease e token rest :
  is_release_candidate e <> 1 ->
  is_help_token token = true ->
  run e (token :: rest)
  = (Echo "Error! Invalid release type supplied" :: Echo "" :: usage_events, 1).
Proof.
  intros Hrc Hh.
  assert (Hv : accepts e (token :: rest) = false).
  { unfold accepts. apply Z.eqb_neq in Hrc. rewrite Hrc. cbn [orb hd].
    now apply help_token_is_no_release_type. }
  exact (run_stops e (token :: rest) _ _ _ _ _ (continues_refl _)
                   (validate_stop e (token :: rest) Hv)).
Qed.

Lemma help_rejected_outside_prerelease_witness :
  run (ready 0 two_releases) ["--help"]
  = (Echo "Error! Invalid release type supplied" :: Echo "" :: usage_events, 1).
Proof.
  apply (help_rejected_outside_prerelease (ready 0 two_releases) "--help" []).
  - cbn. lia.
  - reflexivity.
Defined.

(** C10, as stated, fails for the empty argument: in a prerelease run
    started with an empty first argument (not a help token), the bump is
    run with [--prerelease]; no [--pre] flag is built from the argument. *)
Lemma empty_argument_is_not_spliced :
  is_release_candidate (ready 1 two_releases) = 1
  /\ is_help_token "" = false
  /\ In (Exec ["yarn"; "version"; "--prerelease"; "--preid=rc"])
        (trace (ready 1 two_releases) [""])
  /\ ~ In (Exec ["yarn"; "version"; ("--pre" ++ "")%string; "--preid=rc"])
          (trace (ready 1 two_releases) [""]).
Proof.
  split; [reflexivity |]. split; [reflexivity |].
  split; vm_compute; intuition discriminate.
Qed.

(** C10, amended: in a prerelease run whose first argument is neither a
    help token nor empty, the argument is not validated (nothing is printed
    and the run does not stop before it enters the repository), and the
    only version-bump command the run can execute has the argument spliced
    into its flag: [yarn version --pre<argument> --preid=rc]. *)
Theorem prerelease_argument_is_spliced e a rest :
  is_release_candidate e = 1 ->
  is_help_token a = false ->
  a <> "" ->
  validate_release_type e (a :: rest) = ([], inl tt)
  /\ show_help (a :: rest) = ([], inl tt)
  /\ (exists t, trace e (a :: rest)
                = Exec ["git"; "rev-parse"; "--show-toplevel"] :: t)
  /\ (forall argv, In (Exec argv) (trace e (a :: rest)) ->
                   step_of argv = Some Bumping ->
                   argv = ["yarn"; "version"; ("--pre" ++ a)%string; "--preid=rc"]).
Proof.
  intros Hrc Hh Ha.
  assert (Hv : accepts e (a :: rest) = true) by (unfold accepts; now rewrite Hrc).
  pose proof (validate_pass e (a :: rest) Hv) as Hvalidate.
  pose proof (show_help_pass (a :: rest) Hh) as Hhelp.
  split; [exact Hvalidate |]. split; [exact Hhelp |]. split.
  - pose proof (continues_step _ _ _ _ _
                  (continues_step _ _ _ _ _ (continues_refl (main e (a :: rest)))
                                  Hvalidate) Hhelp) as C.
    unfold trace.
    destruct (Z.eq_dec (cd_toplevel e) 0) as [Hcd | Hcd].
    + destruct (continues_step _ _ _ _ _ C (enter_repository_pass e Hcd)) as [Hev _].
      rewrite Hev. now eexists.
    + destruct (continues_stop _ _ _ _ _ _ C (enter_repository_stop e Hcd)) as [Hev _].
      rewrite Hev. now eexists.
  - intros argv Hin Hstep.
    assert (Hb : arrives_at_bump e (a :: rest)).
    { apply (reached_bump e (a :: rest) Bumping); [| cbn; lia]. now exists argv. }
    destruct (main_from_bump e (a :: rest) Hb) as [Hev _].
    unfold trace in Hin. rewrite Hev in Hin.
    apply in_app_or in Hin as [Hin | Hin].
    { pose proof (below_through_install argv Bumping Hin Hstep) as Hlt.
      cbn in Hlt. lia. }
    destruct (bind_cases (bump_version e (hd "" (a :: rest))) (fun _ => from_build e))
      as [(code & _ & E) | ([] & _ & E & _)];
      unfold from_bump in Hin; rewrite E in Hin;
      [| apply in_app_or in Hin as [Hin | Hin] ].
    1, 2: unfold bump_version in Hin; cbn [events fst] in Hin;
      change (In (Exec argv)
                 (events (echo ("Bumping package.json " ++ a
                                ++ " version and tagging commit")%string ;;
                          exec (version_command (is_release_candidate e) a)
                               (yarn_version e)))) in Hin;
      rewrite announced_events in Hin;
      destruct Hin as [Hin | [Hin | []]]; [discriminate Hin |];
      injection Hin as <-; unfold version_command; rewrite Hrc;
      destruct a; [contradiction | reflexivity].
    destruct (ordered_from_build e) as [_ Hnb].
    specialize (Hnb argv Bumping Hin Hstep). cbn in Hnb. lia.
Qed.

Lemma prerelease_argument_is_spliced_witness :
  validate_release_type (ready 1 two_releases) ["foo"] = ([], inl tt)
  /\ show_help ["foo"] = ([], inl tt)
  /\ (exists t, trace (ready 1 two_releases) ["foo"]
                = Exec ["git"; "rev-parse"; "--show-toplevel"] :: t)
  /\ (forall argv, In (Exec argv) (trace (ready 1 two_releases) ["foo"]) ->
                   step_of argv = Some Bumping ->
                   argv = ["yarn"; "version"; "--prefoo"; "--preid=rc"]).
Proof.
  apply (prerelease_argument_is_spliced (ready 1 two_releases) "foo" []).
  - reflexivity.
  - reflexivity.
  - discriminate.
Defined.

(** ** The version bump *)

Lemma append_empty_right (a : string) : (a ++ "")%string = a.
Proof. induction a as [| x a IH]; cbn; [reflexivity | now rewrite IH]. Qed.

Lemma validated_release_types release_type :
  is_release_type release_type = true ->
  release_type = "patch" \/ release_type = "minor" \/ release_type = "major".
Proof.
  unfold is_release_type. intros H.
  apply orb_true_iff in H as [H | H]; [apply orb_true_iff in H as [H | H] |];
    apply String.eqb_eq in H; auto.
Qed.

Lemma release_command_result irc c current v :
  irc <> 1 ->
  Yarn.read_version current = Some v ->
  Yarn.version_after (version_command irc (Yarn.component_name c)) current
  = Some (Yarn.show_version (Yarn.bump c v)).
Proof.
  intros Hrc Hv. unfold version_command, Yarn.version_after.
  apply Z.eqb_neq in Hrc. rewrite Hrc, Hv. now destruct c.
Qed.

(** C1: with the increment of the package manager as the spec describes
    it, the command line the script builds gives the transitions of the
    spec's table; and in a run that is not a prerelease run the release
    type is patch, minor or major, and whatever the current version
    [x.y.z], with or without a prerelease suffix, the new version is
    [x.y.(z+1)] for patch, [x.(y+1).0] for minor and [(x+1).0.0] for major,
    written without suffix; so that patch on 1.2.3-rc.0 gives 1.2.4. *)
Theorem version_bump_table :
  version_bump false (Some "patch") "1.2.3" = Some "1.2.4"
  /\ version_bump true None "1.2.3" = Some "1.2.3-rc.0"
  /\ version_bump true None "1.2.3-rc.0" = Some "1.2.3-rc.1"
  /\ version_bump true (Some "patch") "1.2.3-rc.0" = Some "1.2.4-rc.0"
  /\ version_bump false (Some "major") "1.2.3-rc.0" = Some "2.0.0"
  /\ version_bump false (Some "patch") "1.2.3-rc.0" = Some "1.2.4"
  /\ version_bump false (Some "minor") "1.2.3-rc.0" = Some "1.3.0"
  /\ version_bump false (Some "major") "1.2.3" = Some "2.0.0"
  /\ (forall release_type,
        is_release_type release_type = true ->
        release_type = "patch" \/ release_type = "minor" \/ release_type = "major")
  /\ (forall irc current v,
        irc <> 1 ->
        Yarn.read_version current = Some v ->
        Yarn.version_after (version_command irc "patch") current
        = Some (Yarn.show_nat (Yarn.major v) ++ "." ++ Yarn.show_nat (Yarn.minor v)
                ++ "." ++ Yarn.show_nat (S (Yarn.patch v)))%string
        /\ Yarn.version_after (version_command irc "minor") current
           = Some (Yarn.show_nat (Yarn.major v) ++ "."
                   ++ Yarn.show_nat (S (Yarn.minor v)) ++ ".0")%string
        /\ Yarn.version_after (version_command irc "major") current
           = Some (Yarn.show_nat (S (Yarn.major v)) ++ ".0.0")%string).
Proof.
  repeat (split; [reflexivity |]).
  split; [exact validated_release_types |].
  intros irc current v Hrc Hv.
  pose proof (release_command_result irc Yarn.Patch current v Hrc Hv) as Hp.
  pose proof (release_command_result irc Yarn.Minor current v Hrc Hv) as Hm.
  pose proof (release_command_result irc Yarn.Major current v Hrc Hv) as HM.
  cbn [Yarn.component_name] in Hp, Hm, HM. rewrite Hp, Hm, HM.
  unfold Yarn.show_version, Yarn.bump. cbn [Yarn.major Yarn.minor Yarn.patch Yarn.prerelease].
  rewrite !append_empty_right. repeat split; reflexivity.
Qed.

Lemma version_bump_table_witness :
  Yarn.version_after (version_command 0 "patch") "1.9.13-rc.4"
  = Some (Yarn.show_nat 1 ++ "." ++ Yarn.show_nat 9 ++ "." ++ Yarn.show_nat 14)%string
  /\ Yarn.version_after (version_command 0 "minor") "1.9.13-rc.4"
     = Some (Yarn.show_nat 1 ++ "." ++ Yarn.show_nat 10 ++ ".0")%string
  /\ Yarn.version_after (version_command 0 "major") "1.9.13-rc.4"
     = Some (Yarn.show_nat 2 ++ ".0.0")%string.
Proof.
  apply (version_bump_table : _ /\ _ /\ _ /\ _ /\ _ /\ _ /\ _ /\ _ /\ _ /\ _)
    with (irc := 0)
         (v := {| Yarn.major := 1; Yarn.minor := 9; Yarn.patch := 13;
                  Yarn.prerelease := Some ("rc", 4%nat) |}).
  - lia.
  - reflexivity.
Defined.

(** ** Release notes *)

Lemma append_assoc (a b c : string) : ((a ++ b) ++ c = a ++ b ++ c)%string.
Proof. induction a as [| x a IH]; cbn; [reflexivity | now rewrite IH]. Qed.

Lemma append_empty (a : string) : (a ++ "")%string = a.
Proof. induction a as [| x a IH]; cbn; [reflexivity | now rewrite IH]. Qed.

Lemma occurs_refl x : occurs x x.
Proof. exists ""%string, ""%string. cbn. now rewrite append_empty. Qed.

Lemma occurs_inside x s before after :
  occurs x s -> occurs x (before ++ s ++ after)%string.
Proof.
  intros (b & a & ->). exists (before ++ b)%string, (a ++ after)%string.
  now rewrite !append_assoc.
Qed.

Lemma occurs_trans x y z : occurs x y -> occurs y z -> occurs x z.
Proof. intros Hxy (b & a & ->). now apply occurs_inside. Qed.

Lemma occurs_unlines line lines :
  In line lines -> occurs line (Text.unlines lines).
Proof.
  induction lines as [| l rest IH]; intros Hin; [destruct Hin |].
  destruct rest as [| l' rest'].
  - destruct Hin as [-> | []]. apply occurs_refl.
  - change (Text.unlines (l :: l' :: rest'))
      with (l ++ Text.newline ++ Text.unlines (l' :: rest'))%string.
    destruct Hin as [-> | Hin].
    + exists ""%string, (Text.newline ++ Text.unlines (l' :: rest'))%string.
      reflexivity.
    + destruct (IH Hin) as (b & a & E). rewrite E.
      exists (l ++ Text.newline ++ b)%string, a. now rewrite !append_assoc.
Qed.

Lemma titles_in_notes e range current subject :
  In subject (git_log_subjects e range) ->
  occurs ("- " ++ subject) (release_notes current (commit_titles e range)).
Proof.
  intros Hin.
  apply (occurs_trans _ (commit_titles e range)).
  - apply occurs_unlines.
    exact (in_map (fun s => ("- " ++ s)%string) _ _ Hin).
  - apply occurs_unlines. cbn. tauto.
Qed.

Lemma tail_short (lines : list string) :
  (List.length lines < 2)%nat -> Text.tail_n 2 lines = lines.
Proof.
  intros H. unfold Text.tail_n.
  replace (List.length lines - 2)%nat with 0%nat by lia. reflexivity.
Qed.

Lemma tail_two (lines : list string) :
  (2 <= List.length lines)%nat ->
  exists earlier previous current,
    lines = earlier ++ [previous; current]
    /\ Text.tail_n 2 lines = [previous; current].
Proof.
  intros H. unfold Text.tail_n.
  pose proof (firstn_skipn (List.length lines - 2) lines) as Hsplit.
  pose proof (length_skipn (List.length lines - 2) lines) as Hlen.
  destruct (skipn (List.length lines - 2) lines) as [| p [| c [| x rest]]];
    cbn in Hlen; try lia.
  exists (firstn (List.length lines - 2) lines), p, c. now split.
Qed.

Lemma fallback_falls_back probes :
  falls_back (map Exec probes ++ events create_github_release_fallback,
              snd create_github_release_fallback).
Proof.
  unfold create_github_release_fallback. rewrite events_echo_lines.
  split; [reflexivity |]. now exists probes.
Qed.

(** C4, as stated, fails in two ways.  With three release tags the notes
    are still synthesised, from the last two, and no fallback message is
    printed; and with exactly two release tags a failing [hub release
    create] ends the whole run with its status. *)
Lemma three_tags_no_fallback_and_release_failure_exits :
  (release_tags (ready 0 three_releases) = ["v1.3.0"; "v1.3.1"; "v1.3.2"]
   /\ In (Exec ["git"; "log"; "--pretty=format:- %s"; "v1.3.1..v1.3.2^"])
         (events (create_github_release (ready 0 three_releases)))
   /\ ~ In (Echo "Remember to create a release on GitHub with a changelog notes:")
           (events (create_github_release (ready 0 three_releases))))
  /\ (release_tags (sample 0 0 0 0 3 clean_status ["G"] two_releases)
      = ["v1.3.1"; "v1.3.2"]
      /\ exit_code (sample 0 0 0 0 3 clean_status ["G"] two_releases) ["patch"] = 3).
Proof.
  split; [split; [reflexivity | split] | split; reflexivity];
    vm_compute; intuition discriminate.
Qed.

(** C4, amended: when there are at least two release tags (tags that start
    with v and hold no rc), the notes are synthesised from the last two in
    version order, they include the subject line of every commit between
    them, and the step ends with the status of [hub release create]; when
    there are fewer than two, or when the release tool is reported missing,
    the manual-instructions message is printed instead and the step does
    not end the run. *)
Theorem release_notes_from_last_two_tags e :
  (hub_reported_missing e = true -> falls_back (create_github_release e))
  /\ (hub_reported_missing e = false ->
      (List.length (release_tags e) < 2)%nat ->
      falls_back (create_github_release e))
  /\ (hub_reported_missing e = false ->
      (2 <= List.length (release_tags e))%nat ->
      exists earlier previous current,
        release_tags e = earlier ++ [previous; current]
        /\ events (create_github_release e)
           = [ Exec ["which"; "hub"];
               Exec ["git"; "tag"; "--sort"; "version:refname"];
               Exec ["git"; "log"; "--pretty=format:- %s";
                     revision_range previous current];
               Echo "Creating GitHub release"; Echo ""; EchoN "    ";
               release_command
                 (release_notes current
                    (commit_titles e (revision_range previous current)))
                 current ]
        /\ (forall subject,
              In subject (git_log_subjects e (revision_range previous current)) ->
              occurs ("- " ++ subject)
                     (release_notes current
                        (commit_titles e (revision_range previous current))))
        /\ status_of (create_github_release e) = hub_release_create e).
Proof.
  unfold hub_reported_missing, create_github_release, versions.
  fold (release_tags e).
  split; [| split].
  - intros ->. exact (fallback_falls_back [["which"; "hub"]]).
  - intros -> Hlen. rewrite (tail_short _ Hlen).
    replace (negb (Nat.eqb (List.length (release_tags e)) 2)) with true
      by (symmetry; apply negb_true_iff, Nat.eqb_neq; lia).
    exact (fallback_falls_back [["which"; "hub"];
                                ["git"; "tag"; "--sort"; "version:refname"]]).
  - intros -> Hlen.
    destruct (tail_two _ Hlen) as (earlier & previous & current & Hsplit & Htail).
    exists earlier, previous, current. rewrite Htail. cbn [List.length Nat.eqb negb nth].
    split; [exact Hsplit |].
    fold (revision_range previous current).
    split; [| split].
    + destruct (Z.eq_dec (hub_release_create e) 0) as [E | E];
        [rewrite (exec_pass _ _ E) | rewrite (exec_stop _ _ E)]; reflexivity.
    + intros subject. apply titles_in_notes.
    + destruct (Z.eq_dec (hub_release_create e) 0) as [E | E];
        [rewrite (exec_pass _ _ E) | rewrite (exec_stop _ _ E)];
        cbn; congruence.
Qed.

Lemma release_notes_from_last_two_tags_witness :
  exists earlier previous current,
    release_tags (ready 0 three_releases) = earlier ++ [previous; current]
    /\ events (create_github_release (ready 0 three_releases))
       = [ Exec ["which"; "hub"];
           Exec ["git"; "tag"; "--sort"; "version:refname"];
           Exec ["git"; "log"; "--pretty=format:- %s";
                 revision_range previous current];
           Echo "Creating GitHub release"; Echo ""; EchoN "    ";
           release_command
             (release_notes current
                (commit_titles (ready 0 three_releases)
                               (revision_range previous current)))
             current ]
    /\ (forall subject,
          In subject (git_log_subjects (ready 0 three_releases)
                                       (revision_range previous current)) ->
          occurs ("- " ++ subject)
                 (release_notes current
                    (commit_titles (ready 0 three_releases)
                                   (revision_range previous current))))
    /\ status_of (create_github_release (ready 0 three_releases))
       = hub_release_create (ready 0 three_releases).
Proof.
  apply (release_notes_from_last_two_tags (ready 0 three_releases)).
  - reflexivity.
  - cbn. lia.
Defined.

(** ** Prerequisites *)

Lemma stops_within_of_below s t :
  below (S (code_order s)) t -> stops_within s t.
Proof. intros H argv s' Hin Hs. specialize (H argv s' Hin Hs). lia. Qed.

Lemma below_failing_at e p : below 1 (trace_failing_at e p).
Proof.
  apply (below_of_lives CheckingPrerequisites); [| cbn; lia].
  unfold trace_failing_at.
  apply lives_exec_cons; [belongs |]. apply lives_echo_cons, lives_app.
  - destruct p; cbn; stage_lives.
  - induction (remediation e p); [apply lives_nil | now apply lives_echo_cons].
Qed.

Lemma prerequisite_stop e args p :
  arrives_at_prerequisites e args ->
  first_failure e = Some p ->
  run e args = (trace_failing_at e p, 1).
Proof.
  intros H Hp.
  exact (run_stops e args _ _ _ _ _ (main_from_prerequisites e args H)
                   (verify_prerequisites_stop e p Hp)).
Qed.



(** C3, as stated, fails: with the release tool absent and everything else
    in place, the run stops inside the prerequisite checks with exit code 1;
    it never gets to the release notes or their fallback. *)
Lemma missing_release_cli_stops_the_run :
  which_hub (sample 0 0 1 0 0 clean_status ["G"] two_releases) <> 0
  /\ run (sample 0 0 1 0 0 clean_status ["G"] two_releases) ["patch"]
     = ([ Exec ["git"; "rev-parse"; "--show-toplevel"];
          Echo "Verifying prerequisites...";
          Exec ["npm"; "whoami"];
          Exec ["yarn"; "login"; "--silent"];
          Exec ["which"; "hub"];
          Echo "Error! 'hub' command not found.";
          Echo "Please install hub with 'brew install hub'." ], 1).
Proof. split; [discriminate | reflexivity]. Qed.

(** C3, amended: the presence check of the release tool is fatal like the
    other prerequisite checks.  In a run that gets to the prerequisite
    checks with both logins in place and [which hub] failing, the run stops
    at that check with exit code 1 after printing that hub was not found
    and how to install it; the release step and its fallback are never
    reached. *)
Theorem missing_release_cli_aborts e args :
  reaches CheckingPrerequisites (trace e args) ->
  npm_whoami e = 0 -> yarn_login e = 0 -> which_hub e <> 0 ->
  run e args = (trace_failing_at e ReleaseCli, 1)
  /\ remediation e ReleaseCli
     = [ "Error! 'hub' command not found.";
         "Please install hub with 'brew install hub'." ]
  /\ ~ reaches CreatingRelease (trace e args)
  /\ ~ In (Echo "Remember to create a release on GitHub with a changelog notes:")
          (trace e args).
Proof.
  intros Hreach Hnpm Hyarn Hhub.
  assert (Hp : first_failure e = Some ReleaseCli).
  { unfold first_failure. cbn. rewrite Hnpm, Hyarn. cbn.
    apply Z.eqb_neq in Hhub. now rewrite Hhub. }
  pose proof (prerequisite_stop e args ReleaseCli
                (reached_prerequisites e args _ Hreach) Hp) as Hrun.
  split; [exact Hrun |]. split; [reflexivity |].
  rewrite (trace_of_run _ _ _ _ Hrun). split.
  - apply avoids_reaches, (avoids_of_below _ 1); [apply below_failing_at | cbn; lia].
  - cbn. intuition discriminate.
Qed.

Lemma missing_release_cli_aborts_witness :
  run (sample 0 0 1 0 0 clean_status ["G"] two_releases) ["patch"]
  = (trace_failing_at (sample 0 0 1 0 0 clean_status ["G"] two_releases) ReleaseCli, 1).
Proof.
  apply (missing_release_cli_aborts
           (sample 0 0 1 0 0 clean_status ["G"] two_releases) ["patch"]).
  - exists ["npm"; "whoami"]. split; [vm_compute; tauto | reflexivity].
  - reflexivity.
  - reflexivity.
  - discriminate.
Defined.

(** ** Repository state *)

Lemma no_violation e :
  first_violation e = None ->
  on_release_branch e = true
  /\ up_to_date_with_remote e = true
  /\ working_tree_clean e = true.
Proof.
  unfold first_violation.
  destruct (on_release_branch e), (up_to_date_with_remote e), (working_tree_clean e);
    cbn; intros H; try discriminate H; auto.
Qed.

Lemma some_violation e :
  on_release_branch e && up_to_date_with_remote e && working_tree_clean e = false ->
  exists v, first_violation e = Some v.
Proof.
  unfold first_violation.
  destruct (on_release_branch e), (up_to_date_with_remote e), (working_tree_clean e);
    cbn; intros H; try discriminate H; eauto.
Qed.

(** The repository-state check as the script makes it, on the text of
    [git status]: it asks for a line holding "On branch master", a line
    saying the branch is up to date with origin/master, and a line holding
    "working tree clean".  It is reached only when every prerequisite
    holds; when one of the three is missing the run prints the message of
    the first one missing and stops with exit code 1, having run nothing
    of a later step; and any later step (install, bump, build, ...) is
    reached only when all three are there. *)
Theorem repository_state_gate e args :
  (reaches CheckingRepoState (trace e args) -> first_failure e = None)
  /\ (reaches CheckingRepoState (trace e args) ->
      git_fetch e = 0 -> snd (git_status e) = 0 ->
      on_release_branch e && up_to_date_with_remote e && working_tree_clean e = false ->
      exists v,
        first_violation e = Some v
        /\ run e args = (trace_through_status ++ [Echo (violation_message v)], 1)
        /\ stops_within CheckingRepoState (trace e args))
  /\ (forall s,
        reaches s (trace e args) ->
        (code_order Installing <= code_order s)%nat ->
        on_release_branch e = true
        /\ up_to_date_with_remote e = true
        /\ working_tree_clean e = true).
Proof.
  split; [| split].
  - intros Hreach.
    now destruct (reached_repository_check e args _ Hreach (le_n 1)).
  - intros Hreach Hf Hs Hbad.
    pose proof (reached_repository_check e args _ Hreach (le_n 1)) as H.
    destruct (some_violation e Hbad) as [v Hv]. exists v.
    split; [exact Hv |].
    pose proof (run_stops e args _ _ _ _ _ (main_from_repository_check e args H)
                          (check_repository_state_stop e v Hf Hs Hv)) as Hrun.
    assert (Hrun' : run e args
                    = (trace_through_status ++ [Echo (violation_message v)], 1))
      by (rewrite Hrun; reflexivity).
    split; [exact Hrun' |].
    rewrite (trace_of_run _ _ _ _ Hrun').
    apply stops_within_of_below, below_app;
      [apply below_through_status | intros argv s' [[=] | []]].
  - intros s Hreach Hle.
    destruct (reached_install e args s Hreach Hle) as (_ & _ & _ & Hv).
    now apply no_violation.
Qed.

Lemma repository_state_gate_witness :
  exists v,
    first_violation
      (sample 0 0 0 0 0 ["On branch master"; "Changes not staged for commit:"]
              ["G"] two_releases) = Some v
    /\ run (sample 0 0 0 0 0 ["On branch master"; "Changes not staged for commit:"]
                   ["G"] two_releases) ["patch"]
       = (trace_through_status ++ [Echo (violation_message v)], 1)
    /\ stops_within CheckingRepoState
         (trace (sample 0 0 0 0 0 ["On branch master"; "Changes not staged for commit:"]
                        ["G"] two_releases) ["patch"]).
Proof.
  apply (repository_state_gate
           (sample 0 0 0 0 0 ["On branch master"; "Changes not staged for commit:"]
                   ["G"] two_releases) ["patch"]).
  - exists ["git"; "status"]. split; [vm_compute; tauto | reflexivity].
  - reflexivity.
  - reflexivity.
  - reflexivity.
Defined.

Lemma same_run_after_check e1 e2 args :
  arrives_at_install e1 args -> arrives_at_install e2 args ->
  from_install e1 args = from_install e2 args ->
  run e1 args = run e2 args.
Proof.
  intros H1 H2 Hrest.
  destruct (main_from_install e1 args H1) as [Hev1 Hsnd1].
  destruct (main_from_install e2 args H2) as [Hev2 Hsnd2].
  unfold run, trace, exit_code, status_of.
  now rewrite Hev1, Hev2, Hsnd1, Hsnd2, Hrest.
Qed.

(** C8 (defect of the script): the branch test and the clean-tree test
    are substring tests on the text of [git status].  On a branch whose
    name only begins with master (and that follows origin/master), whatever
    the rest of the name, the run is the very run made on master: it
    passes the repository check, publishes and ends with exit code 0,
    where the message of the script says "Must be on master branch to
    publish".  Likewise a tree with an uncommitted change in a file named
    "working tree clean" passes the test that should stop a dirty tree. *)
Theorem status_tests_accept_other_states :
  (forall suffix,
     run (sample 0 0 0 0 0
            [ ("On branch master" ++ suffix)%string;
              "Your branch is up to date with 'origin/master'.";
              "";
              "nothing to commit, working tree clean" ]
            ["G"] two_releases) ["patch"]
     = run (ready 0 two_releases) ["patch"])
  /\ run (sample 0 0 0 0 0
            [ "On branch master";
              "Your branch is up to date with 'origin/master'.";
              "";
              "Changes not staged for commit:";
              "        modified:   working tree clean" ]
            ["G"] two_releases) ["patch"]
     = run (ready 0 two_releases) ["patch"]
  /\ exit_code (ready 0 two_releases) ["patch"] = 0
  /\ reaches Publishing (trace (ready 0 two_releases) ["patch"])
  /\ ~ In (Echo "Error! Must be on master branch to publish")
          (trace (ready 0 two_releases) ["patch"])
  /\ ~ In (Echo "Error! Cannot publish with dirty working tree")
          (trace (ready 0 two_releases) ["patch"]).
Proof.
  split.
  { intros suffix. apply same_run_after_check; [| repeat split | reflexivity].
    repeat split.
    unfold first_violation, on_release_branch, up_to_date_with_remote,
      working_tree_clean, status_says.
    replace (existsb (Text.line_matches "On branch master") _) with true
      by (symmetry; apply existsb_exists; eexists; split;
          [left; reflexivity | reflexivity]).
    replace (existsb (Text.line_matches
                        "Your branch is up to date with 'origin/master'.") _)
      with true
      by (symmetry; apply existsb_exists; eexists; split;
          [right; left; reflexivity | reflexivity]).
    replace (existsb (Text.line_matches "working tree clean") _) with true
      by (symmetry; apply existsb_exists; eexists; split;
          [right; right; right; left; reflexivity | reflexivity]).
    reflexivity. }
  split; [reflexivity |]. split; [reflexivity |]. split.
  - exists (publish_command 0). split; [vm_compute; tauto | reflexivity].
  - split; vm_compute; intuition discriminate.
Qed.

(** ** Commit signature *)

Lemma bump_in_trace e args :
  In (Exec (version_command (is_release_candidate e) (hd "" args)))
     (trace_through_tests e args).
Proof.
  unfold trace_through_tests, trace_through_build, trace_through_bump, bump_events.
  apply in_or_app. left. apply in_or_app. left. apply in_or_app. right.
  right. now left.
Qed.

(** C7, as stated, fails for a commit that is not verifiable.  When
    [git show] reports a signature that cannot be checked (E) or a bad one
    (B), the run pushes and ends with exit code 0; and so it does when
    [git show] itself fails, even after printing N. *)
Lemma unverifiable_commit_is_pushed :
  (In (Exec ["git"; "push"; "--follow-tags"])
      (trace (faulty 0 0 0 0 0 0 0 0 (Some "token") (["E"], 0)
                     (["/usr/bin/hub"], 0)) ["patch"])
   /\ exit_code (faulty 0 0 0 0 0 0 0 0 (Some "token") (["E"], 0)
                        (["/usr/bin/hub"], 0)) ["patch"] = 0)
  /\ (In (Exec ["git"; "push"; "--follow-tags"])
         (trace (faulty 0 0 0 0 0 0 0 0 (Some "token") (["B"], 0)
                        (["/usr/bin/hub"], 0)) ["patch"])
      /\ exit_code (faulty 0 0 0 0 0 0 0 0 (Some "token") (["B"], 0)
                           (["/usr/bin/hub"], 0)) ["patch"] = 0)
  /\ (In (Exec ["git"; "push"; "--follow-tags"])
         (trace (faulty 0 0 0 0 0 0 0 0 (Some "token") (["N"], 128)
                        (["/usr/bin/hub"], 0)) ["patch"])
      /\ exit_code (faulty 0 0 0 0 0 0 0 0 (Some "token") (["N"], 128)
                           (["/usr/bin/hub"], 0)) ["patch"] = 0).
Proof.
  repeat split; try reflexivity; vm_compute; tauto.
Qed.

(** C7, amended: the signature of the most recent commit is inspected only
    once the version bump has run and succeeded, with the bump command
    earlier in the trace, and before anything is pushed; when the
    inspection reports the commit as carrying no signature ([git show]
    succeeds and prints N), the run prints a message that names the commit
    hash and stops with exit code 1 without having pushed anything; and
    nothing is pushed in any run for which the inspection made that
    report. *)
Theorem unsigned_commit_aborts e args :
  (reaches VerifyingSignature (trace e args) ->
   yarn_version e = 0
   /\ In (Exec (version_command (is_release_candidate e) (hd "" args)))
         (trace_through_tests e args)
   /\ exists rest,
        trace e args = trace_through_tests e args ++ signature_inspection e ++ rest)
  /\ (reaches VerifyingSignature (trace e args) ->
      reported_unsigned e = true ->
      run e args
      = (trace_through_tests e args ++ signature_inspection e
         ++ [ Echo ("Error! Commit " ++ git_log_head e ++ " is not signed");
              Echo "Please follow https://docs.github.com/en/authentication/managing-commit-signature-verification/adding-a-gpg-key-to-your-github-account and sign your commit" ],
         1)
      /\ ~ reaches Pushing (trace e args))
  /\ (reaches Pushing (trace e args) -> reported_unsigned e = false).
Proof.
  split; [| split].
  - intros Hreach.
    pose proof (reached_signature_check e args _ Hreach (le_n 6)) as H.
    split; [| split].
    + now destruct H as [[[_ Hb] _] _].
    + apply bump_in_trace.
    + destruct (reported_unsigned e) eqn:Hu.
      * destruct (continues_stop _ _ _ _ _ _ (main_from_signature_check e args H)
                                 (verify_commit_is_signed_stop e Hu)) as [Hev _].
        unfold trace. rewrite Hev. now eexists.
      * destruct (main_from_push e args (conj H Hu)) as [Hev _].
        unfold trace, trace_through_signature in *. rewrite Hev, <- app_assoc.
        now eexists.
  - intros Hreach Hu.
    pose proof (reached_signature_check e args _ Hreach (le_n 6)) as H.
    pose proof (run_stops e args _ _ _ _ _ (main_from_signature_check e args H)
                          (verify_commit_is_signed_stop e Hu)) as Hrun.
    split; [exact Hrun |].
    rewrite (trace_of_run _ _ _ _ Hrun).
    apply avoids_reaches, (avoids_of_below _ 7); [| cbn; lia].
    apply below_app; [apply (below_weaken 6); [apply below_through_tests | lia] |].
    apply (below_of_lives VerifyingSignature); [| cbn; lia].
    unfold signature_inspection. cbn. stage_lives.
  - intros Hreach.
    now destruct (reached_push e args _ Hreach (le_n 7)).
Qed.

Lemma unsigned_commit_aborts_witness :
  run (sample 0 0 0 0 0 clean_status ["N"] two_releases) ["patch"]
  = (trace_through_tests (sample 0 0 0 0 0 clean_status ["N"] two_releases) ["patch"]
     ++ signature_inspection (sample 0 0 0 0 0 clean_status ["N"] two_releases)
     ++ [ Echo "Error! Commit 4f2a9c1 is not signed";
          Echo "Please follow https://docs.github.com/en/authentication/managing-commit-signature-verification/adding-a-gpg-key-to-your-github-account and sign your commit" ],
     1)
  /\ ~ reaches Pushing
         (trace (sample 0 0 0 0 0 clean_status ["N"] two_releases) ["patch"]).
Proof.
  apply (unsigned_commit_aborts
           (sample 0 0 0 0 0 clean_status ["N"] two_releases) ["patch"]).
  - exists ["git"; "log"; "-1"; "--format=%H"].
    split; [vm_compute; tauto | reflexivity].
  - reflexivity.
Defined.

(** ** Early exits *)

Lemma loud_pure t : fails_loudly (t, inl tt).
Proof. intros code [=]. Qed.

Lemma loud_exit code : code <> 0 -> fails_loudly (exit code).
Proof. intros H c [= <-]. exact H. Qed.

Lemma loud_errexit status : fails_loudly (errexit status).
Proof.
  unfold errexit. destruct (Z.eqb_spec status 0) as [E | E];
    [apply loud_pure | now apply loud_exit].
Qed.

Lemma loud_bind (m : Script unit) (k : unit -> Script unit) :
  fails_loudly m -> (forall a, fails_loudly (k a)) -> fails_loudly (bind m k).
Proof.
  intros Hm Hk code.
  destruct (bind_cases m k) as [(c & Hs & E) | (a & _ & _ & E)]; rewrite E.
  - intros [= <-]. exact (Hm c Hs).
  - apply Hk.
Qed.

Lemma loud_exec argv status : fails_loudly (exec argv status).
Proof. apply loud_bind; [apply loud_pure | intros _; apply loud_errexit]. Qed.

Lemma loud_when cond body : fails_loudly body -> fails_loudly (when cond body).
Proof. destruct cond; [auto | intros _; apply loud_pure]. Qed.

Lemma loud_echo_lines lines : fails_loudly (echo_lines lines).
Proof. rewrite events_echo_lines. apply loud_pure. Qed.

Ltac loud :=
  repeat first
    [ apply loud_pure
    | apply loud_exit; discriminate
    | apply loud_errexit
    | apply loud_exec
    | apply loud_echo_lines
    | apply loud_when
    | apply loud_bind; [| intros ?; cbv beta zeta ] ].

Lemma loud_validate e args : fails_loudly (validate_release_type e args).
Proof.
  unfold validate_release_type, echo_help. cbv zeta.
  apply loud_when, loud_bind; [loud |].
  intros _. destruct (is_release_type (hd "" args)); loud.
Qed.

Lemma loud_create_github_release e : fails_loudly (create_github_release e).
Proof.
  unfold create_github_release, create_github_release_fallback.
  apply loud_bind; [loud |]. intros _.
  destruct (Text.pipefail _ _ =? 0); [loud |].
  apply loud_bind; [loud |]. intros _. cbv zeta.
  destruct (negb _); loud.
Qed.

Lemma loud_from_prerequisites e args : fails_loudly (from_prerequisites e args).
Proof.
  unfold from_prerequisites, from_repository_check, from_install, from_bump,
    from_build, from_test, from_signature_check, from_push, from_release,
    from_publish.
  apply loud_bind; [unfold verify_prerequisites; loud | intros _].
  apply loud_bind; [unfold check_repository_state; loud | intros _].
  apply loud_bind; [unfold install_dependencies; loud | intros _].
  apply loud_bind; [unfold bump_version; loud | intros _].
  apply loud_bind; [unfold build; loud | intros _].
  apply loud_bind; [unfold test; loud | intros _].
  apply loud_bind; [unfold verify_commit_is_signed; loud | intros _].
  apply loud_bind; [unfold push; loud | intros _].
  apply loud_bind;
    [unfold release; apply loud_when, loud_create_github_release | intros _].
  apply loud_bind; [unfold publish; loud | intros _].
  loud.
Qed.

Lemma loud_main e args :
  is_help_token (hd "" args) = false -> fails_loudly (main e args).
Proof.
  intros Hh.
  change (main e args)
    with (validate_release_type e args ;; show_help args ;; enter_repository e ;;
          from_prerequisites e args).
  rewrite (show_help_pass args Hh).
  apply loud_bind; [apply loud_validate | intros _].
  apply loud_bind; [apply loud_pure | intros _].
  apply loud_bind; [unfold enter_repository; loud | intros _].
  apply loud_from_prerequisites.
Qed.

(** * Further properties of the script *)

(** ** Patterns and the lines they select *)

Lemma atoms_app p q : Text.atoms (p ++ q) = Text.atoms p ++ Text.atoms q.
Proof. induction p as [| c p IH]; cbn; [reflexivity | now rewrite IH]. Qed.

Lemma match_here_literal p q s :
  dot_free p = true ->
  Text.match_here (Text.atoms p ++ q) s = true
  <-> exists rest, s = (p ++ rest)%string /\ Text.match_here q rest = true.
Proof.
  revert s. induction p as [| c p IH]; intros s Hp.
  - cbn. split; [intros H; now exists s | now intros (rest & -> & H)].
  - cbn in Hp. apply andb_true_iff in Hp as [Hc Hp].
    cbn [Text.atoms app]. unfold Text.atom_of.
    apply negb_true_iff in Hc. rewrite Hc.
    destruct s as [| d s]; cbn [Text.match_here Text.atom_matches].
    + split; [discriminate | intros (rest & [=] & _)].
    + rewrite andb_true_iff, (IH s Hp). split.
      * intros [Hcd (rest & -> & H)]. apply Ascii.eqb_eq in Hcd as ->.
        now exists rest.
      * intros (rest & [= -> ->] & H). split; [apply Ascii.eqb_refl | now exists rest].
Qed.

Lemma match_anywhere_split p s :
  Text.match_anywhere p s = true
  <-> exists before rest, s = (before ++ rest)%string /\ Text.match_here p rest = true.
Proof.
  induction s as [| c s IH]; cbn [Text.match_anywhere]; rewrite orb_true_iff.
  - split.
    + intros [H | H]; [| discriminate H]. now exists ""%string, ""%string.
    + intros (before & rest & E & H). left.
      destruct before; [| discriminate E]. cbn in E. now subst rest.
  - rewrite IH. split.
    + intros [H | (before & rest & -> & H)].
      * now exists ""%string, (String c s).
      * now exists (String c before), rest.
    + intros (before & rest & E & H).
      destruct before as [| d before]; cbn in E.
      * left. now subst rest.
      * injection E as -> ->. right. now exists before, rest.
Qed.

Lemma line_matches_unanchored pattern line :
  unanchored pattern = true ->
  Text.line_matches pattern line = Text.match_anywhere (Text.atoms pattern) line.
Proof.
  destruct pattern as [| c pattern]; [reflexivity |].
  destruct c as [[] [] [] [] [] [] [] []]; cbn; intros H;
    try reflexivity; discriminate H.
Qed.

(** A pattern without metacharacters selects the lines that hold it. *)
Lemma plain_pattern_selects pattern line :
  plain pattern = true ->
  Text.line_matches pattern line = true <-> occurs pattern line.
Proof.
  unfold plain. intros H. apply andb_true_iff in H as [Hu Hd].
  rewrite (line_matches_unanchored _ _ Hu), match_anywhere_split.
  split.
  - intros (before & rest & -> & H).
    rewrite <- (app_nil_r (Text.atoms pattern)) in H.
    apply (match_here_literal _ _ _ Hd) in H as (after & -> & _).
    now exists before, after.
  - intros (before & after & ->). exists before, (pattern ++ after)%string.
    split; [reflexivity |].
    rewrite <- (app_nil_r (Text.atoms pattern)).
    apply (match_here_literal _ _ _ Hd). now exists after.
Qed.

(** A final dot stands for one more character, whichever it is. *)
Lemma trailing_dot_selects pattern line :
  plain pattern = true ->
  Text.line_matches (pattern ++ ".") line = true
  <-> exists c, occurs (pattern ++ String c "") line.
Proof.
  unfold plain. intros H. apply andb_true_iff in H as [Hu Hd].
  assert (Hu' : unanchored (pattern ++ ".") = true)
    by (destruct pattern; [reflexivity | exact Hu]).
  rewrite (line_matches_unanchored _ _ Hu'), match_anywhere_split, atoms_app.
  split.
  - intros (before & rest & -> & H).
    apply (match_here_literal _ _ _ Hd) in H as (after & -> & H).
    destruct after as [| c after]; [discriminate H |].
    exists c, before, after. now rewrite append_assoc.
  - intros (c & before & after & ->).
    exists before, (pattern ++ String c after)%string. split.
    + now rewrite append_assoc.
    + apply (match_here_literal _ _ _ Hd). now exists (String c after).
Qed.

Lemma anchored_pattern_selects pattern line :
  dot_free pattern = true ->
  Text.line_matches (String "^" pattern) line = true <-> begins_with pattern line.
Proof.
  intros Hd. change (Text.line_matches (String "^" pattern) line)
    with (Text.match_here (Text.atoms pattern) line).
  rewrite <- (app_nil_r (Text.atoms pattern)), (match_here_literal _ _ _ Hd).
  split; [intros (rest & -> & _) | intros (rest & ->)]; now exists rest.
Qed.

Lemma some_line_selected pattern lines :
  plain pattern = true ->
  existsb (Text.line_matches pattern) lines = true <-> some_line_holds pattern lines.
Proof.
  intros Hp. rewrite existsb_exists. unfold some_line_holds.
  split; intros (line & Hin & H); exists line; split; try exact Hin;
    now apply (plain_pattern_selects _ _ Hp).
Qed.

(** ** Events of a sequence *)

Lemma in_bind_left {A B : Type} (m : Script A) (k : A -> Script B) ev :
  In ev (events m) -> In ev (events (bind m k)).
Proof.
  intros H. destruct (bind_cases m k) as [(code & _ & ->) | (a & _ & -> & _)];
    [exact H | apply in_or_app; now left].
Qed.

Lemma in_bind_inv (m rest : Script unit) ev :
  In ev (events (m ;; rest)) ->
  In ev (events m) \/ (snd m = inl tt /\ In ev (events rest)).
Proof.
  destruct (bind_cases m (fun _ => rest)) as [(code & _ & ->) | ([] & Hs & -> & _)];
    intros H; [now left |].
  apply in_app_or in H as [H | H]; auto.
Qed.

Lemma passed_pair (m : Script unit) :
  snd m = inl tt -> m = (events m, inl tt).
Proof. destruct m as [t r]. cbn. now intros ->. Qed.

Lemma snd_bind (m rest : Script unit) :
  snd (m ;; rest) = inl tt <-> snd m = inl tt /\ snd rest = inl tt.
Proof.
  destruct (bind_cases m (fun _ => rest)) as [(code & Hs & ->) | ([] & Hs & _ & ->)];
    rewrite Hs; cbn; split; try tauto; try discriminate.
Qed.

(** In a run that has come to [stage], a command of the step of [stage]
    that the trace holds is a command of [stage]. *)
Lemma command_of_stage s s' k (m : Script unit) prefix (stage rest : Script unit) argv :
  continues m prefix (stage ;; rest) ->
  below k prefix -> (k <= code_order s)%nat ->
  ordered_from s' rest -> (code_order s < code_order s')%nat ->
  In (Exec argv) (events m) -> step_of argv = Some s ->
  In (Exec argv) (events stage).
Proof.
  intros [Hev _] Hbelow Hk [_ Hnb] Hlt Hin Hstep. rewrite Hev in Hin.
  apply in_app_or in Hin as [Hin | Hin].
  - specialize (Hbelow argv s Hin Hstep). lia.
  - apply in_bind_inv in Hin as [Hin | [_ Hin]]; [exact Hin |].
    specialize (Hnb argv s Hin Hstep). lia.
Qed.

(** ** The release step *)

Lemma versions_two e :
  Nat.eqb (List.length (versions e)) 2 = negb (List.length (release_tags e) <? 2)%nat.
Proof.
  unfold versions. fold (release_tags e).
  destruct (Nat.ltb_spec (List.length (release_tags e)) 2) as [H | H]; cbn [negb].
  - rewrite (tail_short _ H). apply Nat.eqb_neq. lia.
  - destruct (tail_two _ H) as (earlier & p & c & _ & ->). reflexivity.
Qed.

Lemma create_github_release_cases e :
  (hub_reported_missing e = true
   /\ create_github_release e
      = (Exec ["which"; "hub"] :: map Echo fallback_message, inl tt))
  \/ (hub_reported_missing e = false
      /\ (List.length (release_tags e) < 2)%nat
      /\ create_github_release e
         = (Exec ["which"; "hub"]
            :: Exec ["git"; "tag"; "--sort"; "version:refname"]
            :: map Echo fallback_message, inl tt))
  \/ (hub_reported_missing e = false
      /\ exists earlier previous current,
           release_tags e = earlier ++ [previous; current]
           /\ create_github_release e
              = ([ Exec ["which"; "hub"];
                   Exec ["git"; "tag"; "--sort"; "version:refname"];
                   Exec ["git"; "log"; "--pretty=format:- %s";
                         revision_range previous current];
                   Echo "Creating GitHub release"; Echo ""; EchoN "    ";
                   release_command
                     (release_notes current
                        (commit_titles e (revision_range previous current)))
                     current ],
                 if hub_release_create e =? 0 then inl tt
                 else inr (hub_release_create e))).
Proof.
  unfold hub_reported_missing, create_github_release, versions,
    create_github_release_fallback.
  fold (release_tags e). rewrite events_echo_lines.
  destruct (Text.pipefail _ _ =? 0); [left; now split | right].
  destruct (Nat.ltb_spec (List.length (release_tags e)) 2) as [H | H].
  - left. split; [reflexivity |]. split; [exact H |].
    rewrite (tail_short _ H).
    replace (negb (Nat.eqb (List.length (release_tags e)) 2)) with true
      by (symmetry; apply negb_true_iff, Nat.eqb_neq; lia).
    reflexivity.
  - right. split; [reflexivity |].
    destruct (tail_two _ H) as (earlier & previous & current & Hsplit & ->).
    exists earlier, previous, current. split; [exact Hsplit |].
    cbn [List.length Nat.eqb negb nth]. fold (revision_range previous current).
    unfold exec, errexit, release_command.
    destruct (hub_release_create e =? 0); reflexivity.
Qed.

Lemma release_result e :
  snd (release e)
  = if release_step_passes e then inl tt else inr (hub_release_create e).
Proof.
  unfold release, release_step_passes, when.
  destruct (is_release_candidate e =? 1); [reflexivity |]. cbn [negb orb].
  destruct (create_github_release_cases e)
    as [[-> ->] | [(-> & Hlen & ->) | (-> & earlier & p & c & Htags & ->)]].
  - reflexivity.
  - apply Nat.ltb_lt in Hlen. now rewrite Hlen.
  - cbn [orb snd].
    replace (List.length (release_tags e) <? 2)%nat with false.
    + cbn [orb]. reflexivity.
    + symmetry. apply Nat.ltb_ge. rewrite Htags, length_app. cbn. lia.
Qed.

Lemma release_pass e :
  release_step_passes e = true -> release e = (events (release e), inl tt).
Proof. intros H. apply passed_pair. now rewrite release_result, H. Qed.

Lemma release_stop e :
  release_step_passes e = false ->
  release e = (events (release e), inr (hub_release_create e))
  /\ hub_release_create e <> 0.
Proof.
  intros H. split.
  - pose proof (release_result e) as R. rewrite H in R.
    destruct (release e) as [t r]. cbn in *. now subst r.
  - unfold release_step_passes in H. repeat apply orb_false_iff in H as [H ?].
    now apply Z.eqb_neq.
Qed.

Lemma release_passed e : snd (release e) = inl tt -> release_step_passes e = true.
Proof. rewrite release_result. now destruct (release_step_passes e). Qed.

(** ** The last steps *)

Lemma main_from_release e args :
  arrives_at_release e args ->
  continues (main e args) (trace_through_push e args) (from_release e).
Proof.
  intros [H Hp].
  exact (continues_step _ _ _ _ _ (main_from_push e args H)
                        (announced_pass _ _ _ Hp)).
Qed.

Lemma main_from_publish e args :
  arrives_at_publish e args ->
  continues (main e args) (trace_through_release e args) (from_publish e).
Proof.
  intros [H Hr].
  exact (continues_step _ _ _ _ _ (main_from_release e args H) (release_pass e Hr)).
Qed.

Lemma below_through_push e args : below 8 (trace_through_push e args).
Proof.
  apply below_app; [apply (below_weaken 7); [apply below_through_signature | lia] |].
  apply (below_of_lives Pushing); [unfold push_events; stage_lives | cbn; lia].
Qed.

Lemma below_through_release e args : below 9 (trace_through_release e args).
Proof.
  apply below_app; [apply (below_weaken 8); [apply below_through_push | lia] |].
  apply (below_of_lives CreatingRelease); [apply lives_release | cbn; lia].
Qed.

Lemma reached_release e args s :
  reaches s (trace e args) -> (8 <= code_order s)%nat ->
  arrives_at_release e args.
Proof.
  intros Hreach Hle.
  assert (H : arrives_at_push e args)
    by (apply (reached_push e args s); [exact Hreach | lia]).
  destruct (arrival s _ _ (push e) _ (main_from_push e args H)) as [Hp _];
    [ apply (avoids_of_below s 7); [apply below_through_signature | lia]
    | apply (avoids_of_lives s Pushing);
        [apply lives_push | intros ->; cbn in Hle; lia]
    | exact Hreach | ].
  split; [exact H | exact (announced_passed _ _ _ Hp)].
Qed.

Lemma reached_publish e args :
  reaches Publishing (trace e args) -> arrives_at_publish e args.
Proof.
  intros Hreach.
  assert (H : arrives_at_release e args)
    by (apply (reached_release e args Publishing); [exact Hreach | cbn; lia]).
  destruct (arrival Publishing _ _ (release e) _ (main_from_release e args H))
    as [Hp _];
    [ apply (avoids_of_below _ 8); [apply below_through_push | cbn; lia]
    | apply (avoids_of_lives _ CreatingRelease);
        [apply lives_release | discriminate]
    | exact Hreach | ].
  split; [exact H | now apply release_passed].
Qed.

(** ** Arguments *)

(** X1: in a prerelease run a help token as first argument is served
    before the script enters the repository: the run prints the six lines
    of the usage text and nothing else, runs none of npm, yarn, git, hub or
    which, and ends with exit code 0. *)
Theorem help_served_in_prerelease e args :
  is_release_candidate e = 1 -> is_help_token (hd "" args) = true ->
  run e args
  = ([ Echo "USAGE:";
       Echo "    ./scripts/publish <release_type>";
       Echo "";
       Echo "ARGS:";
       Echo "    <release_type>";
       Echo ("            A Semantic Versioning release type used to bump the version number. Either "
             ++ Text.dquote ++ "patch" ++ Text.dquote ++ ", "
             ++ Text.dquote ++ "minor" ++ Text.dquote ++ ", or "
             ++ Text.dquote ++ "major" ++ Text.dquote ++ ".") ], 0).
Proof. intros Hrc Hh. exact (help_in_prerelease e args Hrc Hh). Qed.

Lemma help_served_in_prerelease_witness :
  run (ready 1 two_releases) ["help"; "patch"]
  = ([ Echo "USAGE:";
       Echo "    ./scripts/publish <release_type>";
       Echo "";
       Echo "ARGS:";
       Echo "    <release_type>";
       Echo ("            A Semantic Versioning release type used to bump the version number. Either "
             ++ Text.dquote ++ "patch" ++ Text.dquote ++ ", "
             ++ Text.dquote ++ "minor" ++ Text.dquote ++ ", or "
             ++ Text.dquote ++ "major" ++ Text.dquote ++ ".") ], 0).
Proof.
  apply (help_served_in_prerelease (ready 1 two_releases) ["help"; "patch"]);
    reflexivity.
Defined.

(** X2: only the first argument counts; whatever follows it on the command
    line changes nothing in the run. *)
Theorem later_arguments_are_ignored e a rest rest' :
  run e (a :: rest) = run e (a :: rest').
Proof. reflexivity. Qed.

Lemma bump_command e args argv :
  In (Exec argv) (trace e args) -> step_of argv = Some Bumping ->
  argv = version_command (is_release_candidate e) (hd "" args)
  /\ accepts e args = true.
Proof.
  intros Hin Hstep.
  assert (Hb : arrives_at_bump e args).
  { apply (reached_bump e args Bumping); [| cbn; lia]. now exists argv. }
  split; [| now destruct Hb as [[[[Ha _] _] _] _]].
  pose proof (command_of_stage Bumping Building 3 _ _ _ _ argv
                (main_from_bump e args Hb) below_through_install (le_n 3)
                (ordered_from_build e) (le_n 4) Hin Hstep) as H.
  unfold bump_version in H. rewrite announced_events in H.
  destruct H as [H | [H | []]]; [discriminate H | now injection H].
Qed.

(** X3: outside a prerelease run, the only version-bump commands a run can
    execute are [yarn version --patch], [--minor] and [--major]: the
    validation keeps anything else from getting there. *)
Theorem release_bump_flag_is_validated e args argv :
  is_release_candidate e <> 1 ->
  In (Exec argv) (trace e args) -> step_of argv = Some Bumping ->
  argv = ["yarn"; "version"; "--patch"]
  \/ argv = ["yarn"; "version"; "--minor"]
  \/ argv = ["yarn"; "version"; "--major"].
Proof.
  intros Hrc Hin Hstep.
  destruct (bump_command e args argv Hin Hstep) as [-> Ha].
  unfold accepts in Ha. unfold version_command.
  apply Z.eqb_neq in Hrc. rewrite Hrc in *. cbn [orb] in Ha.
  unfold is_release_type in Ha.
  apply orb_true_iff in Ha as [Ha | Ha]; [apply orb_true_iff in Ha as [Ha | Ha] |];
    apply String.eqb_eq in Ha; rewrite Ha; auto.
Qed.

Lemma release_bump_flag_is_validated_witness :
  ["yarn"; "version"; "--minor"] = ["yarn"; "version"; "--patch"]
  \/ ["yarn"; "version"; "--minor"] = ["yarn"; "version"; "--minor"]
  \/ ["yarn"; "version"; "--minor"] = ["yarn"; "version"; "--major"].
Proof.
  apply (release_bump_flag_is_validated (ready 0 two_releases) ["minor"]).
  - discriminate.
  - vm_compute. tauto.
  - reflexivity.
Defined.

(** X4: in a prerelease run started without argument, or with an empty
    first argument, the only version-bump command a run can execute is
    [yarn version --prerelease --preid=rc]. *)
Theorem prerelease_without_argument_bumps_counter e args argv :
  is_release_candidate e = 1 -> hd "" args = "" ->
  In (Exec argv) (trace e args) -> step_of argv = Some Bumping ->
  argv = ["yarn"; "version"; "--prerelease"; "--preid=rc"].
Proof.
  intros Hrc Hempty Hin Hstep.
  destruct (bump_command e args argv Hin Hstep) as [-> _].
  unfold version_command. now rewrite Hrc, Hempty.
Qed.

Lemma prerelease_without_argument_bumps_counter_witness :
  ["yarn"; "version"; "--prerelease"; "--preid=rc"]
  = ["yarn"; "version"; "--prerelease"; "--preid=rc"].
Proof.
  apply (prerelease_without_argument_bumps_counter (ready 1 two_releases) []).
  - reflexivity.
  - reflexivity.
  - vm_compute. tauto.
  - reflexivity.
Defined.

(** ** Release and publication *)

Lemma publish_command_in_trace e args argv :
  In (Exec argv) (trace e args) -> step_of argv = Some Publishing ->
  argv = publish_command (is_release_candidate e).
Proof.
  intros Hin Hstep.
  assert (Hp : arrives_at_publish e args)
    by (apply reached_publish; now exists argv).
  destruct (main_from_publish e args Hp) as [Hev _].
  unfold trace in Hin. rewrite Hev in Hin.
  apply in_app_or in Hin as [Hin | Hin].
  { pose proof (below_through_release e args argv Publishing Hin Hstep) as H.
    cbn in H. lia. }
  unfold from_publish in Hin.
  apply in_bind_inv in Hin as [Hin | [_ Hin]].
  - unfold publish in Hin. rewrite announced_events in Hin.
    destruct Hin as [H | [H | []]]; [discriminate H | now injection H].
  - cbn in Hin. destruct Hin as [H | [H | []]]; discriminate H.
Qed.

(** X5: a prerelease run never runs a command of the release step (no
    tag listing, no release notes, no [hub release create]) and publishes
    under the distribution tag rc; any other run publishes without a tag. *)
Theorem prerelease_publishes_under_rc_without_release e args :
  (is_release_candidate e = 1 ->
   ~ reaches CreatingRelease (trace e args)
   /\ forall argv, In (Exec argv) (trace e args) -> step_of argv = Some Publishing ->
        argv = ["yarn"; "--ignore-scripts"; "publish"; "--tag=rc";
                "--non-interactive"; "--access=public"])
  /\ (is_release_candidate e <> 1 ->
      forall argv, In (Exec argv) (trace e args) -> step_of argv = Some Publishing ->
        argv = ["yarn"; "--ignore-scripts"; "publish";
                "--non-interactive"; "--access=public"]).
Proof.
  split.
  - intros Hrc. split.
    + intros Hreach.
      pose proof (reached_release e args _ Hreach (le_n 8)) as H.
      destruct Hreach as (argv & Hin & Hstep).
      pose proof (command_of_stage CreatingRelease Publishing 8 _ _ _ _ argv
                    (main_from_release e args H) (below_through_push e args)
                    (le_n 8) (ordered_from_publish e) (le_n 9) Hin Hstep) as Hr.
      unfold release in Hr. rewrite Hrc in Hr. exact Hr.
    + intros argv Hin Hstep.
      rewrite (publish_command_in_trace e args argv Hin Hstep).
      unfold publish_command. now rewrite Hrc.
  - intros Hrc argv Hin Hstep.
    rewrite (publish_command_in_trace e args argv Hin Hstep).
    unfold publish_command. apply Z.eqb_neq in Hrc. now rewrite Hrc.
Qed.

Lemma prerelease_publishes_under_rc_without_release_witness :
  ~ reaches CreatingRelease (trace (ready 1 two_releases) [])
  /\ forall argv, In (Exec argv) (trace (ready 1 two_releases) []) ->
       step_of argv = Some Publishing ->
       argv = ["yarn"; "--ignore-scripts"; "publish"; "--tag=rc";
               "--non-interactive"; "--access=public"].
Proof.
  apply (prerelease_publishes_under_rc_without_release (ready 1 two_releases) []).
  reflexivity.
Defined.

(** X6: nothing is published unless every gate before it has let the run
    through: accepted arguments, every prerequisite, the repository state,
    install, bump, build and test all succeeding, a commit not reported
    unsigned, a successful push, and a release step that passed. *)
Theorem publish_only_after_every_gate e args :
  reaches Publishing (trace e args) ->
  accepts e args = true
  /\ first_failure e = None
  /\ (git_fetch e = 0 /\ snd (git_status e) = 0 /\ first_violation e = None)
  /\ (yarn_install e = 0 /\ yarn_version e = 0 /\ yarn_build e = 0 /\ yarn_test e = 0)
  /\ reported_unsigned e = false
  /\ git_push e = 0
  /\ release_step_passes e = true.
Proof.
  intros Hreach.
  pose proof (reached_publish e args Hreach) as H.
  unfold arrives_at_publish, arrives_at_release, arrives_at_push,
    arrives_at_signature_check, arrives_at_test, arrives_at_build, arrives_at_bump,
    arrives_at_install, arrives_at_repository_check, arrives_at_prerequisites in H.
  tauto.
Qed.

Lemma publish_only_after_every_gate_witness :
  accepts (ready 0 two_releases) ["patch"] = true
  /\ first_failure (ready 0 two_releases) = None
  /\ (git_fetch (ready 0 two_releases) = 0
      /\ snd (git_status (ready 0 two_releases)) = 0
      /\ first_violation (ready 0 two_releases) = None)
  /\ (yarn_install (ready 0 two_releases) = 0
      /\ yarn_version (ready 0 two_releases) = 0
      /\ yarn_build (ready 0 two_releases) = 0
      /\ yarn_test (ready 0 two_releases) = 0)
  /\ reported_unsigned (ready 0 two_releases) = false
  /\ git_push (ready 0 two_releases) = 0
  /\ release_step_passes (ready 0 two_releases) = true.
Proof.
  apply (publish_only_after_every_gate (ready 0 two_releases) ["patch"]).
  exists (publish_command 0). split; [vm_compute; tauto | reflexivity].
Defined.

Lemma completed_run e args :
  completes e args ->
  events (main e args)
  = trace_through_publish e args ++ [Echo "Publish successful!"; Echo ""]
  /\ snd (main e args) = inl tt.
Proof.
  intros [H Hp].
  destruct (continues_step _ _ _ _ _ (main_from_publish e args H)
                           (announced_pass _ _ _ Hp)) as [Hev Hsnd].
  split; [exact Hev | exact Hsnd].
Qed.

Lemma main_passed e args : snd (main e args) = inl tt -> completes e args.
Proof.
  unfold main. cbv zeta. intros E.
  apply snd_bind in E as [Hv E]. apply validate_passed in Hv.
  apply snd_bind in E as [Hh E]. apply show_help_passed in Hh.
  apply snd_bind in E as [Hcd E]. apply enter_repository_passed in Hcd.
  apply snd_bind in E as [Hp E]. apply verify_prerequisites_passed in Hp.
  apply snd_bind in E as [Hrepo E]. apply check_repository_state_passed in Hrepo.
  apply snd_bind in E as [Hi E]. apply announced_passed in Hi.
  apply snd_bind in E as [Hb E]. apply announced_passed in Hb.
  apply snd_bind in E as [Hbuild E]. apply announced_passed in Hbuild.
  apply snd_bind in E as [Ht E]. apply announced_passed in Ht.
  apply snd_bind in E as [Hs E]. apply verify_commit_is_signed_passed in Hs.
  apply snd_bind in E as [Hpush E]. apply announced_passed in Hpush.
  apply snd_bind in E as [Hr E]. apply release_passed in Hr.
  apply snd_bind in E as [Hpub _]. apply announced_passed in Hpub.
  unfold completes, arrives_at_publish, arrives_at_release, arrives_at_push,
    arrives_at_signature_check, arrives_at_test, arrives_at_build, arrives_at_bump,
    arrives_at_install, arrives_at_repository_check, arrives_at_prerequisites.
  tauto.
Qed.

(** X7: a run that is not a help request ends with exit code 0 exactly
    when every gate lets it through (arguments, prerequisites, repository
    state, install, bump, build, test, signature, push, release step,
    publish); it has then run every step and its last two lines are
    "Publish successful!" and an empty line. *)
Theorem success_means_every_gate_passed e args :
  is_help_token (hd "" args) = false ->
  (exit_code e args = 0 <-> completes e args)
  /\ (completes e args ->
      trace e args
      = trace_through_publish e args ++ [Echo "Publish successful!"; Echo ""]).
Proof.
  intros Hh. split; [split |].
  - intros Hexit. apply main_passed.
    unfold exit_code, status_of in Hexit.
    destruct (snd (main e args)) as [[] | code] eqn:E; [reflexivity |].
    now destruct (loud_main e args Hh code E).
  - intros H. destruct (completed_run e args H) as [_ Hsnd].
    unfold exit_code, status_of. now rewrite Hsnd.
  - intros H. now destruct (completed_run e args H).
Qed.

Lemma success_means_every_gate_passed_witness :
  (exit_code (ready 0 two_releases) ["patch"] = 0
   <-> completes (ready 0 two_releases) ["patch"])
  /\ (completes (ready 0 two_releases) ["patch"] ->
      trace (ready 0 two_releases) ["patch"]
      = trace_through_publish (ready 0 two_releases) ["patch"]
        ++ [Echo "Publish successful!"; Echo ""]).
Proof.
  apply (success_means_every_gate_passed (ready 0 two_releases) ["patch"]).
  reflexivity.
Defined.

(** ** A failing tool ends the run with its own status *)

(** X8: when the change of directory to the repository root fails, the run
    ends with the status of [cd]; only [git rev-parse] has been run, and no
    prerequisite has been checked. *)
Theorem cd_failure_stops_before_checks e args :
  accepts e args = true -> is_help_token (hd "" args) = false ->
  cd_toplevel e <> 0 ->
  run e args = ([Exec ["git"; "rev-parse"; "--show-toplevel"]], cd_toplevel e).
Proof.
  intros Ha Hh Hcd.
  pose proof (continues_step _ _ _ _ _
                (continues_step _ _ _ _ _ (continues_refl (main e args))
                                (validate_pass e args Ha))
                (show_help_pass args Hh)) as C.
  exact (run_stops e args _ _ _ _ _ C (enter_repository_stop e Hcd)).
Qed.

Lemma cd_failure_stops_before_checks_witness :
  run (faulty 0 1 0 0 0 0 0 0 (Some "token") (["G"], 0) (["/usr/bin/hub"], 0))
      ["patch"]
  = ([Exec ["git"; "rev-parse"; "--show-toplevel"]], 1).
Proof.
  apply (cd_failure_stops_before_checks
           (faulty 0 1 0 0 0 0 0 0 (Some "token") (["G"], 0) (["/usr/bin/hub"], 0))
           ["patch"]).
  - reflexivity.
  - reflexivity.
  - discriminate.
Defined.

(** X9: in a run that gets to the repository check, a failing [git fetch]
    ends the run with its status before [git status] is asked; and after a
    successful fetch a failing [git status] ends the run with its status
    before its text is inspected.  Nothing of a later step is run. *)
Theorem fetch_or_status_failure_stops e args :
  reaches CheckingRepoState (trace e args) ->
  (git_fetch e <> 0 ->
   run e args
   = (trace_through_prerequisites
      ++ [Echo "Fetching git remotes"; Exec ["git"; "fetch"]], git_fetch e))
  /\ (git_fetch e = 0 -> snd (git_status e) <> 0 ->
      run e args = (trace_through_status, snd (git_status e))).
Proof.
  intros Hreach.
  pose proof (main_from_repository_check e args
                (reached_repository_check e args _ Hreach (le_n 1))) as C.
  split.
  - intros Hf.
    exact (run_stops e args _ _ _ _ _ C (check_repository_state_fetch_stop e Hf)).
  - intros Hf Hs.
    exact (run_stops e args _ _ _ _ _ C (check_repository_state_status_stop e Hf Hs)).
Qed.

Lemma fetch_or_status_failure_stops_witness :
  run (faulty 0 0 128 0 0 0 0 0 (Some "token") (["G"], 0) (["/usr/bin/hub"], 0))
      ["patch"]
  = (trace_through_prerequisites
     ++ [Echo "Fetching git remotes"; Exec ["git"; "fetch"]], 128).
Proof.
  apply (fetch_or_status_failure_stops
           (faulty 0 0 128 0 0 0 0 0 (Some "token") (["G"], 0) (["/usr/bin/hub"], 0))
           ["patch"]).
  - exists ["git"; "fetch"]. split; [vm_compute; tauto | reflexivity].
  - discriminate.
Defined.

(** X10: a failing [yarn install --frozen-lockfile] ends the run with its
    status before the version is bumped: the manifest and the tags are left
    alone. *)
Theorem install_failure_stops_before_bump e args :
  reaches Installing (trace e args) -> yarn_install e <> 0 ->
  run e args = (trace_through_install, yarn_install e)
  /\ ~ reaches Bumping (trace e args).
Proof.
  intros Hreach Hfail.
  pose proof (run_stops e args _ _ _ _ _
                (main_from_install e args (reached_install e args _ Hreach (le_n 2)))
                (announced_stop _ _ _ Hfail)) as Hrun.
  split; [exact Hrun |].
  rewrite (trace_of_run _ _ _ _ Hrun).
  apply avoids_reaches, (avoids_of_below _ 3); [apply below_through_install | cbn; lia].
Qed.

Lemma install_failure_stops_before_bump_witness :
  run (faulty 0 0 0 0 1 0 0 0 (Some "token") (["G"], 0) (["/usr/bin/hub"], 0))
      ["patch"]
  = (trace_through_install, 1)
  /\ ~ reaches Bumping
         (trace (faulty 0 0 0 0 1 0 0 0 (Some "token") (["G"], 0)
                        (["/usr/bin/hub"], 0)) ["patch"]).
Proof.
  apply (install_failure_stops_before_bump
           (faulty 0 0 0 0 1 0 0 0 (Some "token") (["G"], 0) (["/usr/bin/hub"], 0))
           ["patch"]).
  - exists ["yarn"; "install"; "--frozen-lockfile"].
    split; [vm_compute; tauto | reflexivity].
  - discriminate.
Defined.

(** X11: a failing [yarn version] ends the run with its status; nothing is
    built, tested, pushed or published. *)
Theorem bump_failure_stops_before_build e args :
  reaches Bumping (trace e args) -> yarn_version e <> 0 ->
  run e args = (trace_through_bump e args, yarn_version e)
  /\ stops_within Bumping (trace e args).
Proof.
  intros Hreach Hfail.
  pose proof (run_stops e args _ _ _ _ _
                (main_from_bump e args (reached_bump e args _ Hreach (le_n 3)))
                (announced_stop _ _ _ Hfail)) as Hrun.
  split; [exact Hrun |].
  rewrite (trace_of_run _ _ _ _ Hrun).
  apply stops_within_of_below, below_through_bump.
Qed.

Lemma bump_failure_stops_before_build_witness :
  run (faulty 0 0 0 0 0 1 0 0 (Some "token") (["G"], 0) (["/usr/bin/hub"], 0))
      ["patch"]
  = (trace_through_bump
       (faulty 0 0 0 0 0 1 0 0 (Some "token") (["G"], 0) (["/usr/bin/hub"], 0))
       ["patch"], 1)
  /\ stops_within Bumping
       (trace (faulty 0 0 0 0 0 1 0 0 (Some "token") (["G"], 0)
                      (["/usr/bin/hub"], 0)) ["patch"]).
Proof.
  apply (bump_failure_stops_before_build
           (faulty 0 0 0 0 0 1 0 0 (Some "token") (["G"], 0) (["/usr/bin/hub"], 0))
           ["patch"]).
  - exists ["yarn"; "version"; "--patch"].
    split; [vm_compute; tauto | reflexivity].
  - discriminate.
Defined.

(** X12: a failing [git push] ends the run with its status; no release is
    created and nothing is published. *)
Theorem push_failure_stops_before_release e args :
  reaches Pushing (trace e args) -> git_push e <> 0 ->
  run e args = (trace_through_push e args, git_push e)
  /\ ~ reaches CreatingRelease (trace e args)
  /\ ~ reaches Publishing (trace e args).
Proof.
  intros Hreach Hfail.
  pose proof (run_stops e args _ _ _ _ _
                (main_from_push e args (reached_push e args _ Hreach (le_n 7)))
                (announced_stop _ _ _ Hfail)) as Hrun.
  split; [exact Hrun |].
  rewrite (trace_of_run _ _ _ _ Hrun).
  split; apply avoids_reaches, (avoids_of_below _ 8);
    try (cbn; lia); apply below_through_push.
Qed.

Lemma push_failure_stops_before_release_witness :
  run (faulty 0 0 0 0 0 0 1 0 (Some "token") (["G"], 0) (["/usr/bin/hub"], 0))
      ["patch"]
  = (trace_through_push
       (faulty 0 0 0 0 0 0 1 0 (Some "token") (["G"], 0) (["/usr/bin/hub"], 0))
       ["patch"], 1)
  /\ ~ reaches CreatingRelease
         (trace (faulty 0 0 0 0 0 0 1 0 (Some "token") (["G"], 0)
                        (["/usr/bin/hub"], 0)) ["patch"])
  /\ ~ reaches Publishing
         (trace (faulty 0 0 0 0 0 0 1 0 (Some "token") (["G"], 0)
                        (["/usr/bin/hub"], 0)) ["patch"]).
Proof.
  apply (push_failure_stops_before_release
           (faulty 0 0 0 0 0 0 1 0 (Some "token") (["G"], 0) (["/usr/bin/hub"], 0))
           ["patch"]).
  - exists ["git"; "push"; "--follow-tags"].
    split; [vm_compute; tauto | reflexivity].
  - discriminate.
Defined.

Lemma no_release_command_when_passing e notes version :
  release_step_passes e = true -> hub_release_create e <> 0 ->
  ~ In (release_command notes version) (events (release e)).
Proof.
  unfold release_step_passes, release, when. intros Hpass Hfail.
  apply Z.eqb_neq in Hfail. rewrite Hfail, orb_false_r in Hpass.
  destruct (is_release_candidate e =? 1); [intros [] |]. cbn [orb negb] in *.
  destruct (create_github_release_cases e)
    as [[_ ->] | [(_ & _ & ->) | (Hm & earlier & p & c & Htags & _)]].
  - cbn. intuition discriminate.
  - cbn. intuition discriminate.
  - rewrite Hm in Hpass. cbn [orb] in Hpass. apply Nat.ltb_lt in Hpass.
    rewrite Htags, length_app in Hpass. cbn in Hpass. lia.
Qed.

(** X13: when [hub release create] is run and fails, the run ends with its
    status: the commit and the tag have been pushed, but nothing is
    published to the registry. *)
Theorem release_failure_stops_before_publish e args notes version :
  In (release_command notes version) (trace e args) ->
  hub_release_create e <> 0 ->
  run e args = (trace_through_release e args, hub_release_create e)
  /\ In (Exec ["git"; "push"; "--follow-tags"]) (trace e args)
  /\ ~ reaches Publishing (trace e args).
Proof.
  intros Hin Hfail.
  assert (H : arrives_at_release e args).
  { apply (reached_release e args CreatingRelease); [| apply le_n].
    eexists. split; [exact Hin | reflexivity]. }
  pose proof (command_of_stage CreatingRelease Publishing 8 _ _ _ _ _
                (main_from_release e args H) (below_through_push e args)
                (le_n 8) (ordered_from_publish e) (le_n 9) Hin eq_refl) as Hr.
  destruct (release_step_passes e) eqn:Hpass;
    [now apply no_release_command_when_passing in Hr |].
  destruct (release_stop e Hpass) as [Hstop _].
  pose proof (run_stops e args _ _ _ _ _ (main_from_release e args H) Hstop) as Hrun.
  split; [exact Hrun |].
  rewrite (trace_of_run _ _ _ _ Hrun). split.
  - unfold trace_through_release, trace_through_push, push_events.
    apply in_or_app. left. apply in_or_app. right. right. now left.
  - apply avoids_reaches, (avoids_of_below _ 9);
      [apply below_through_release | cbn; lia].
Qed.

Lemma release_failure_stops_before_publish_witness :
  run (sample 0 0 0 0 3 clean_status ["G"] two_releases) ["patch"]
  = (trace_through_release (sample 0 0 0 0 3 clean_status ["G"] two_releases)
                           ["patch"], 3)
  /\ In (Exec ["git"; "push"; "--follow-tags"])
        (trace (sample 0 0 0 0 3 clean_status ["G"] two_releases) ["patch"])
  /\ ~ reaches Publishing
         (trace (sample 0 0 0 0 3 clean_status ["G"] two_releases) ["patch"]).
Proof.
  apply (release_failure_stops_before_publish
           (sample 0 0 0 0 3 clean_status ["G"] two_releases) ["patch"]
           (release_notes "v1.3.2"
              (commit_titles (sample 0 0 0 0 3 clean_status ["G"] two_releases)
                             (revision_range "v1.3.1" "v1.3.2")))
           "v1.3.2").
  - vm_compute. tauto.
  - discriminate.
Defined.

(** X14: a failing publish ends the run with the status of the package
    manager, and the line "Publish successful!" is not printed. *)
Theorem publish_failure_is_reported e args :
  reaches Publishing (trace e args) -> yarn_publish e <> 0 ->
  run e args = (trace_through_publish e args, yarn_publish e)
  /\ ~ In (Echo "Publish successful!") (trace e args).
Proof.
  intros Hreach Hfail.
  pose proof (reached_publish e args Hreach) as H.
  pose proof (run_stops e args _ _ _ _ _ (main_from_publish e args H)
                        (announced_stop _ _ _ Hfail)) as Hrun.
  split; [exact Hrun |].
  rewrite (trace_of_run _ _ _ _ Hrun).
  unfold trace_through_publish, trace_through_release, trace_through_push,
    trace_through_signature, trace_through_tests, trace_through_build,
    trace_through_bump.
  rewrite !in_app_iff. intros Hin.
  repeat destruct Hin as [Hin | Hin];
    try (cbn in Hin; intuition discriminate).
  unfold release, when in Hin.
  destruct (negb (is_release_candidate e =? 1)); [| destruct Hin].
  destruct (create_github_release_cases e)
    as [[_ E] | [(_ & _ & E) | (_ & earlier & p & c & _ & E)]];
    rewrite E in Hin; cbn in Hin; intuition discriminate.
Qed.

Lemma publish_failure_is_reported_witness :
  run (faulty 0 0 0 0 0 0 0 1 (Some "token") (["G"], 0) (["/usr/bin/hub"], 0))
      ["patch"]
  = (trace_through_publish
       (faulty 0 0 0 0 0 0 0 1 (Some "token") (["G"], 0) (["/usr/bin/hub"], 0))
       ["patch"], 1)
  /\ ~ In (Echo "Publish successful!")
          (trace (faulty 0 0 0 0 0 0 0 1 (Some "token") (["G"], 0)
                         (["/usr/bin/hub"], 0)) ["patch"]).
Proof.
  apply (publish_failure_is_reported
           (faulty 0 0 0 0 0 0 0 1 (Some "token") (["G"], 0) (["/usr/bin/hub"], 0))
           ["patch"]).
  - exists (publish_command 0). split; [vm_compute; tauto | reflexivity].
  - discriminate.
Defined.

(** ** What the text tests let through *)

Lemma install_reached e args :
  arrives_at_install e args -> reaches Installing (trace e args).
Proof.
  intros H. destruct (main_from_install e args H) as [Hev _].
  exists ["yarn"; "install"; "--frozen-lockfile"]. split; [| reflexivity].
  unfold trace. rewrite Hev. apply in_or_app. right.
  unfold from_install. apply in_bind_left.
  unfold install_dependencies. rewrite announced_events. right. now left.
Qed.

(** X15: the repository check is a test on the text of [git status].  Once
    the fetch and [git status] have succeeded, the run goes on to install
    exactly when some line holds "On branch master", some line holds "Your
    branch is up to date with 'origin/master'" followed by one more
    character, and some line holds "working tree clean"; the lines may hold
    more text around these. *)
Theorem repository_check_reads_status_text e args :
  reaches CheckingRepoState (trace e args) ->
  git_fetch e = 0 -> snd (git_status e) = 0 ->
  (reaches Installing (trace e args)
   <-> some_line_holds "On branch master" (fst (git_status e))
       /\ (exists c, some_line_holds
                       ("Your branch is up to date with 'origin/master'"
                        ++ String c "") (fst (git_status e)))
       /\ some_line_holds "working tree clean" (fst (git_status e))).
Proof.
  intros Hreach Hf Hs.
  assert (Hbranch : on_release_branch e = true
                    <-> some_line_holds "On branch master" (fst (git_status e)))
    by (apply some_line_selected; reflexivity).
  assert (Hclean : working_tree_clean e = true
                   <-> some_line_holds "working tree clean" (fst (git_status e)))
    by (apply some_line_selected; reflexivity).
  assert (Hcurrent : up_to_date_with_remote e = true
                     <-> exists c, some_line_holds
                           ("Your branch is up to date with 'origin/master'"
                            ++ String c "") (fst (git_status e))).
  { unfold up_to_date_with_remote, status_says. rewrite existsb_exists. split.
    - intros (line & Hin & H).
      apply (trailing_dot_selects
               "Your branch is up to date with 'origin/master'" line eq_refl)
        in H as [c H].
      exists c, line. now split.
    - intros (c & line & Hin & H). exists line. split; [exact Hin |].
      apply (trailing_dot_selects
               "Your branch is up to date with 'origin/master'" line eq_refl).
      now exists c. }
  rewrite <- Hbranch, <- Hcurrent, <- Hclean. split.
  - intros Hi.
    destruct (reached_install e args _ Hi (le_n 2)) as (_ & _ & _ & Hv).
    now apply no_violation.
  - intros (Hb & Hc & Hw). apply install_reached.
    split; [exact (reached_repository_check e args _ Hreach (le_n 1)) |].
    repeat split; try assumption.
    unfold first_violation. now rewrite Hb, Hc, Hw.
Qed.

Lemma repository_check_reads_status_text_witness :
  reaches Installing
    (trace (sample 0 0 0 0 0
              [ "On branch master-next";
                "Your branch is up to date with 'origin/master'.";
                "nothing to commit, working tree clean" ]
              ["G"] two_releases) ["patch"])
  <-> some_line_holds "On branch master"
        [ "On branch master-next";
          "Your branch is up to date with 'origin/master'.";
          "nothing to commit, working tree clean" ]
      /\ (exists c, some_line_holds
                      ("Your branch is up to date with 'origin/master'"
                       ++ String c "")
                      [ "On branch master-next";
                        "Your branch is up to date with 'origin/master'.";
                        "nothing to commit, working tree clean" ])
      /\ some_line_holds "working tree clean"
           [ "On branch master-next";
             "Your branch is up to date with 'origin/master'.";
             "nothing to commit, working tree clean" ].
Proof.
  apply (repository_check_reads_status_text
           (sample 0 0 0 0 0
              [ "On branch master-next";
                "Your branch is up to date with 'origin/master'.";
                "nothing to commit, working tree clean" ]
              ["G"] two_releases) ["patch"]).
  - exists ["git"; "status"]. split; [vm_compute; tauto | reflexivity].
  - reflexivity.
  - reflexivity.
Defined.

Lemma push_reached e args :
  arrives_at_push e args -> reaches Pushing (trace e args).
Proof.
  intros H. destruct (main_from_push e args H) as [Hev _].
  exists ["git"; "push"; "--follow-tags"]. split; [| reflexivity].
  unfold trace. rewrite Hev. apply in_or_app. right.
  unfold from_push. apply in_bind_left.
  unfold push. rewrite announced_events. right. now left.
Qed.

(** X16: the signature check stops a run only on a successful [git show]
    with the letter N on some output line.  A run that has come to the check
    goes on to [git push] exactly when [git show] failed or no line of its
    output holds an N, whatever else the output says. *)
Theorem signature_check_lets_through e args :
  reaches VerifyingSignature (trace e args) ->
  (reaches Pushing (trace e args)
   <-> snd (git_show_signature e) <> 0
       \/ ~ some_line_holds "N" (fst (git_show_signature e))).
Proof.
  intros Hreach.
  pose proof (some_line_selected "N" (fst (git_show_signature e)) eq_refl) as Hn.
  assert (Hu : reported_unsigned e = false
               <-> snd (git_show_signature e) <> 0
                   \/ ~ some_line_holds "N" (fst (git_show_signature e))).
  { unfold reported_unsigned. rewrite andb_false_iff, Z.eqb_neq, <- Hn.
    now rewrite not_true_iff_false. }
  rewrite <- Hu. split.
  - intros Hp. now destruct (reached_push e args _ Hp (le_n 7)).
  - intros H. apply push_reached.
    split; [exact (reached_signature_check e args _ Hreach (le_n 6)) | exact H].
Qed.

Lemma signature_check_lets_through_witness :
  reaches Pushing
    (trace (faulty 0 0 0 0 0 0 0 0 (Some "token") (["N"], 128)
                   (["/usr/bin/hub"], 0)) ["patch"])
  <-> snd (git_show_signature
             (faulty 0 0 0 0 0 0 0 0 (Some "token") (["N"], 128)
                     (["/usr/bin/hub"], 0))) <> 0
      \/ ~ some_line_holds "N"
             (fst (git_show_signature
                     (faulty 0 0 0 0 0 0 0 0 (Some "token") (["N"], 128)
                             (["/usr/bin/hub"], 0)))).
Proof.
  apply (signature_check_lets_through
           (faulty 0 0 0 0 0 0 0 0 (Some "token") (["N"], 128)
                   (["/usr/bin/hub"], 0)) ["patch"]).
  exists ["git"; "log"; "-1"; "--format=%H"].
  split; [vm_compute; tauto | reflexivity].
Defined.

(** X17: inside the release step, the test for a missing hub sends the
    step to the manual instructions only when [which hub] succeeded and
    printed a line holding "not found"; in every other case, a failing
    [which hub] included, the tags are listed. *)
Theorem tags_listed_unless_hub_reported_missing e :
  In (Exec ["git"; "tag"; "--sort"; "version:refname"])
     (events (create_github_release e))
  <-> ~ (snd (which_hub_release e) = 0
         /\ some_line_holds "not found" (fst (which_hub_release e))).
Proof.
  assert (Hm : hub_reported_missing e = true
               <-> snd (which_hub_release e) = 0
                   /\ some_line_holds "not found" (fst (which_hub_release e))).
  { unfold hub_reported_missing.
    rewrite pipefail_zero, grep_status_zero, andb_true_iff, Z.eqb_eq.
    now rewrite (some_line_selected "not found" _ eq_refl). }
  rewrite <- Hm.
  destruct (create_github_release_cases e)
    as [[-> ->] | [(-> & _ & ->) | (-> & earlier & p & c & _ & ->)]]; cbn.
  - split; [intuition discriminate | intros H; now destruct H].
  - split; [discriminate | auto].
  - split; [discriminate | auto].
Qed.

(** X18: whenever the release step calls [hub release create], the version
    it names is the last of the release tags in the order [git tag] gave;
    it is one of the tags of the repository, it begins with v and holds no
    rc; and the notes begin with that version as their first line. *)
Theorem release_is_made_for_last_release_tag e notes version :
  In (release_command notes version) (events (create_github_release e)) ->
  version = last (release_tags e) ""
  /\ In version (git_tag e)
  /\ begins_with "v" version
  /\ ~ occurs "rc" version
  /\ begins_with (version ++ Text.newline) notes.
Proof.
  intros Hin.
  destruct (create_github_release_cases e)
    as [[_ E] | [(_ & _ & E) | (_ & earlier & p & c & Htags & E)]];
    rewrite E in Hin; cbn [events fst] in Hin.
  1, 2: cbn in Hin; exfalso; intuition discriminate.
  cbn in Hin. unfold release_command in Hin.
  repeat (destruct Hin as [Hin | Hin]; try discriminate Hin); [| destruct Hin].
  injection Hin as <- <-.
  assert (Hc : In c (release_tags e))
    by (rewrite Htags; apply in_or_app; right; right; now left).
  unfold release_tags, Text.grep_v, Text.grep in Hc.
  apply filter_In in Hc as [Hc Hrc]. apply filter_In in Hc as [Hc Hv].
  split; [| split; [exact Hc | split; [| split]]].
  - rewrite Htags.
    change (earlier ++ [p; c]) with (earlier ++ [p] ++ [c]).
    now rewrite app_assoc, last_last.
  - now apply (anchored_pattern_selects "v" c eq_refl).
  - intros H. apply (plain_pattern_selects "rc" c eq_refl) in H.
    rewrite H in Hrc. discriminate Hrc.
  - eexists. unfold release_notes. cbn [Text.unlines].
    rewrite append_assoc. reflexivity.
Qed.

Lemma release_is_made_for_last_release_tag_witness :
  "v1.3.2" = last (release_tags (ready 0 three_releases)) ""
  /\ In "v1.3.2" (git_tag (ready 0 three_releases))
  /\ begins_with "v" "v1.3.2"
  /\ ~ occurs "rc" "v1.3.2"
  /\ begins_with
       ("v1.3.2" ++ Text.newline)
       (release_notes "v1.3.2"
          (commit_titles (ready 0 three_releases)
                         (revision_range "v1.3.1" "v1.3.2"))).
Proof.
  apply (release_is_made_for_last_release_tag (ready 0 three_releases)).
  vm_compute. tauto.
Defined.

(** ** The token *)

(** X19: an access token that is set but empty counts as missing.  With
    the logins and hub in place, a run that gets to the prerequisite checks
    with [GITHUB_TOKEN] unset or empty stops at the token check with exit
    code 1, before any signing configuration is read. *)
Theorem empty_token_counts_as_missing e args :
  reaches CheckingPrerequisites (trace e args) ->
  npm_whoami e = 0 -> yarn_login e = 0 -> which_hub e = 0 ->
  GITHUB_TOKEN e = None \/ GITHUB_TOKEN e = Some "" ->
  run e args
  = ([ Exec ["git"; "rev-parse"; "--show-toplevel"];
       Echo "Verifying prerequisites...";
       Exec ["npm"; "whoami"];
       Exec ["yarn"; "login"; "--silent"];
       Exec ["which"; "hub"];
       Echo "Error! GITHUB_TOKEN environment variable is not set." ], 1).
Proof.
  intros Hreach Hnpm Hyarn Hhub Htoken.
  apply (prerequisite_stop e args TokenPresent
           (reached_prerequisites e args _ Hreach)).
  unfold first_failure. cbn. rewrite Hnpm, Hyarn, Hhub. cbn.
  unfold token_unset. now destruct Htoken as [-> | ->].
Qed.

Lemma empty_token_counts_as_missing_witness :
  run (faulty 0 0 0 0 0 0 0 0 (Some "") (["G"], 0) (["/usr/bin/hub"], 0)) ["patch"]
  = ([ Exec ["git"; "rev-parse"; "--show-toplevel"];
       Echo "Verifying prerequisites...";
       Exec ["npm"; "whoami"];
       Exec ["yarn"; "login"; "--silent"];
       Exec ["which"; "hub"];
       Echo "Error! GITHUB_TOKEN environment variable is not set." ], 1).
Proof.
  apply (empty_token_counts_as_missing
           (faulty 0 0 0 0 0 0 0 0 (Some "") (["G"], 0) (["/usr/bin/hub"], 0))
           ["patch"]).
  - exists ["npm"; "whoami"]. split; [vm_compute; tauto | reflexivity].
  - reflexivity.
  - reflexivity.
  - reflexivity.
  - now right.
Defined.

(** ** The order of the steps *)






